(** * Storage of the Cucumber adapter (scenario-storage.ts)

    A shallow embedding of the class [Storage] of
    testit-adapter-cucumber/src/scenario-storage.ts and the properties its
    specification states about it.

    - The seven event arrays are lists; [push] appends at the end and
      [Array.prototype.find] is [List.find] (first match).
    - The three accumulators are plain JS objects used as maps. An own
      property is an entry of a [gmap]; a key that is not an own property
      still reads as defined when [Object.prototype] supplies it
      ([getProp]).
    - [addLinks] stores the caller's array itself, and later calls push into
      it: link arrays live in a heap of arrays, and [resultLinks] maps a case
      identifier to a location of that heap.
    - Methods run in a state and exception monad over the heap and the
      storage object; a [throw] keeps the state reached so far.
    - Timestamps' [seconds] are integers ([Z]).
    - [parseTags], [mapDate], [mapStatus] and [calculateResultOutcome] are
      imported from other modules; they are pure parameters here. *)

From Stdlib Require Import ZArith Ascii String List.
From stdpp Require Import gmap strings list fin_maps functions.

Local Open Scope string_scope.
Local Open Scope list_scope.
Local Open Scope Z_scope.

(** ** Messages of @cucumber/messages (the fields the storage reads) *)

Record Timestamp := mkTimestamp { seconds : Z; nanos : Z }.

Record PickleTag := mkPickleTag { tag_name : string; tag_astNodeId : string }.

Record PickleStep := mkPickleStep { pickleStep_id : string; pickleStep_text : string }.

Record Pickle := mkPickle {
  pickle_id : string;
  pickle_name : string;
  pickle_steps : list PickleStep;
  pickle_tags : list PickleTag }.

(** [pickleStepId] is optional in the message schema (hook steps lack it). *)
Record TestStep := mkTestStep {
  testStep_id : string;
  testStep_pickleStepId : option string }.

Record TestCase := mkTestCase {
  testCase_id : string;
  testCase_pickleId : string;
  testCase_testSteps : list TestStep }.

Record TestCaseStarted := mkTestCaseStarted {
  testCaseStarted_id : string;
  testCaseStarted_testCaseId : string;
  testCaseStarted_timestamp : Timestamp }.

Record TestCaseFinished := mkTestCaseFinished {
  testCaseFinished_testCaseStartedId : string;
  testCaseFinished_timestamp : Timestamp }.

Record TestStepStarted := mkTestStepStarted {
  testStepStarted_testStepId : string;
  testStepStarted_timestamp : Timestamp }.

Inductive TestStepResultStatus :=
  UNKNOWN | PASSED | SKIPPED | PENDING | UNDEFINED | AMBIGUOUS | FAILED.

Record TestStepResult := mkTestStepResult {
  testStepResult_duration : Timestamp;
  testStepResult_message : option string;
  testStepResult_status : TestStepResultStatus }.

Record TestStepFinished := mkTestStepFinished {
  testStepFinished_testStepId : string;
  testStepFinished_testStepResult : TestStepResult;
  testStepFinished_timestamp : Timestamp }.

(** Stored, never read back. *)
Record GherkinDocument := mkGherkinDocument { gherkinDocument_uri : option string }.

(** ** Values of testit-js-commons *)

Record Link := mkLink { link_url : string; link_title : option string }.

Record Attachment := mkAttachment { attachment_id : string }.

(** An outcome is a string; the storage compares it with string literals. *)
Definition Outcome := string.

(** What [parseTags] returns, as far as the storage reads it. *)
Record ParsedTags := mkParsedTags {
  tags_externalId : option string;
  tags_name : option string;
  tags_links : list Link }.

(** The imported functions. *)
Class Collaborators := {
  Date : Type;
  parseTags : list PickleTag → ParsedTags;
  mapDate : Z → Date;
  mapStatus : TestStepResultStatus → Outcome;
  calculateResultOutcome : list Outcome → Outcome }.

(** ** JS objects used as maps *)

(** The property names every plain object inherits from [Object.prototype]. *)
Definition objectPrototypeKeys : list string :=
  [ "constructor"; "__defineGetter__"; "__defineSetter__"; "hasOwnProperty";
    "__lookupGetter__"; "__lookupSetter__"; "isPrototypeOf";
    "propertyIsEnumerable"; "toString"; "valueOf"; "__proto__";
    "toLocaleString" ].

(** Reading [o[k]]: an own entry, an inherited member (a function, or the
    prototype itself; none of them has [push], [concat] or [join]), or
    [undefined]. *)
Inductive Property (A : Type) :=
  | Own (a : A)
  | Inherited
  | Undefined.
Arguments Own {A} a.
Arguments Inherited {A}.
Arguments Undefined {A}.

Definition getProp {A} (o : gmap string A) (k : string) : Property A :=
  match o !! k with
  | Some a => Own a
  | None => if bool_decide (k ∈ objectPrototypeKeys) then Inherited else Undefined
  end.

(** ** Arrays *)

(** [arr[i]] for an integer [i]: [undefined] out of range, also below 0. *)
Definition js_at {A} (arr : list A) (i : Z) : option A :=
  if i <? 0 then None else arr !! Z.to_nat i.

(** [arr.filter((item, i, arr) => f(item, i, arr))]. *)
Fixpoint filter_from {A} (f : A → Z → bool) (i : Z) (l : list A) : list A :=
  match l with
  | [] => []
  | item :: rest =>
      if f item i then item :: filter_from f (i + 1) rest
      else filter_from f (i + 1) rest
  end.

Definition js_filter {A} (f : A → Z → list A → bool) (arr : list A) : list A :=
  filter_from (λ item i, f item i arr) 0 arr.

(** [arr.join(separator)] on an array of strings. *)
Definition join (sep : string) (arr : list string) : string := String.concat sep arr.

(** The separator of both joins: two line feeds. *)
Definition doubleNewline : string := String "010"%char (String "010"%char EmptyString).

(** ** The storage object and the heap of link arrays *)

Definition loc := nat.

Record Storage := mkStorage {
  gherkinDocuments : list GherkinDocument;
  pickles : list Pickle;
  testCases : list TestCase;
  testCasesStarted : list TestCaseStarted;
  testCasesFinished : list TestCaseFinished;
  testStepsStarted : list TestStepStarted;
  testStepsFinished : list TestStepFinished;
  messages : gmap string (list string);
  resultLinks : gmap string loc;
  attachments : gmap string (list Attachment) }.

(** [this] is the storage object; [arrays] gives the contents of every link
    array, those still only in the caller's hands included. *)
Record World := mkWorld {
  this : Storage;
  arrays : loc → list Link }.

Definition emptyStorage : Storage :=
  mkStorage [] [] [] [] [] [] [] ∅ ∅ ∅.

Definition with_this (f : Storage → Storage) (w : World) : World :=
  mkWorld (f (this w)) (arrays w).

(** ** The monad of methods *)

Inductive Exn :=
  | Error (message : string)
  | TypeError.

Inductive Completion (A : Type) :=
  | Return (a : A)
  | Throw (e : Exn).
Arguments Return {A} a.
Arguments Throw {A} e.

Definition M (A : Type) : Type := World → Completion A * World.

Definition ret {A} (a : A) : M A := λ w, (Return a, w).
Definition throw {A} (e : Exn) : M A := λ w, (Throw e, w).
Definition bind {A B} (m : M A) (k : A → M B) : M B :=
  λ w, match m w with
       | (Return a, w') => k a w'
       | (Throw e, w') => (Throw e, w')
       end.
Definition get : M World := λ w, (Return w, w).
Definition modify (f : World → World) : M unit := λ w, (Return tt, f w).

Notation "x <- m ;; k" := (bind m (λ x, k))
  (at level 100, m at next level, right associativity, only parsing).
Notation "m ;; k" := (bind m (λ _, k))
  (at level 100, right associativity, only parsing).

(** [const x = arr.find(p); if (x === undefined) throw new Error(msg)]. *)
Definition found {A} (o : option A) (msg : string) : M A :=
  match o with
  | Some a => ret a
  | None => throw (Error msg)
  end.

(** [arr.map(f)] with an [f] that may throw: left to right, the first
    exception ends the loop. *)
Fixpoint mapM {A B} (f : A → M B) (arr : list A) : M (list B) :=
  match arr with
  | [] => ret []
  | a :: rest => b <- f a ;; bs <- mapM f rest ;; ret (b :: bs)
  end.

(** ** The class [Storage] *)

Section Methods.
Context `{Collab : Collaborators}.

Record TestResultStep := mkTestResultStep {
  step_title : string;
  step_startedOn : Date;
  step_duration : Z;
  step_completedOn : Date;
  step_outcome : Outcome }.

(** [resultLinks] and [attachments] hold whatever the property reads gave. *)
Record TestResult := mkTestResult {
  externalId : string;
  displayName : string;
  links : list Link;
  result_resultLinks : Property (list Link);
  stepResults : list TestResultStep;
  outcome : Outcome;
  startedOn : Date;
  completedOn : Date;
  duration : Z;
  message : option string;
  traces : string;
  result_attachments : Property (list Attachment) }.

(** The loop of [isResolvedTestCase] over [this.pickles]. *)
Fixpoint isResolvedTestCase_loop (testCase : TestCase) (ps : list Pickle) : bool :=
  match ps with
  | [] => false
  | pickle :: rest =>
      let tags := parseTags (pickle_tags pickle) in
      if bool_decide (tags_externalId tags ≠ None)
         && bool_decide (testCase_pickleId testCase = pickle_id pickle)
      then true
      else isResolvedTestCase_loop testCase rest
  end.

Definition isResolvedTestCase (testCase : TestCase) : M bool :=
  w <- get ;;
  ret (isResolvedTestCase_loop testCase (pickles (this w))).

Definition saveGherkinDocument (document : GherkinDocument) : M unit :=
  modify (with_this (λ s,
    mkStorage (gherkinDocuments s ++ [document]) (pickles s) (testCases s)
      (testCasesStarted s) (testCasesFinished s) (testStepsStarted s)
      (testStepsFinished s) (messages s) (resultLinks s) (attachments s))).

Definition savePickle (pickle : Pickle) : M unit :=
  modify (with_this (λ s,
    mkStorage (gherkinDocuments s) (pickles s ++ [pickle]) (testCases s)
      (testCasesStarted s) (testCasesFinished s) (testStepsStarted s)
      (testStepsFinished s) (messages s) (resultLinks s) (attachments s))).

Definition saveTestCase (testCase : TestCase) : M unit :=
  modify (with_this (λ s,
    mkStorage (gherkinDocuments s) (pickles s) (testCases s ++ [testCase])
      (testCasesStarted s) (testCasesFinished s) (testStepsStarted s)
      (testStepsFinished s) (messages s) (resultLinks s) (attachments s))).

Definition saveTestCaseStarted (testCaseStarted : TestCaseStarted) : M unit :=
  modify (with_this (λ s,
    mkStorage (gherkinDocuments s) (pickles s) (testCases s)
      (testCasesStarted s ++ [testCaseStarted]) (testCasesFinished s)
      (testStepsStarted s) (testStepsFinished s) (messages s) (resultLinks s)
      (attachments s))).

Definition saveTestCaseFinished (testCaseFinished : TestCaseFinished) : M unit :=
  modify (with_this (λ s,
    mkStorage (gherkinDocuments s) (pickles s) (testCases s)
      (testCasesStarted s) (testCasesFinished s ++ [testCaseFinished])
      (testStepsStarted s) (testStepsFinished s) (messages s) (resultLinks s)
      (attachments s))).

Definition saveTestStepStarted (testStepStarted : TestStepStarted) : M unit :=
  modify (with_this (λ s,
    mkStorage (gherkinDocuments s) (pickles s) (testCases s)
      (testCasesStarted s) (testCasesFinished s)
      (testStepsStarted s ++ [testStepStarted]) (testStepsFinished s)
      (messages s) (resultLinks s) (attachments s))).

Definition saveTestStepFinished (testStepFinished : TestStepFinished) : M unit :=
  modify (with_this (λ s,
    mkStorage (gherkinDocuments s) (pickles s) (testCases s)
      (testCasesStarted s) (testCasesFinished s) (testStepsStarted s)
      (testStepsFinished s ++ [testStepFinished]) (messages s) (resultLinks s)
      (attachments s))).

(** The lookup chain shared by [getStepResult] and [getStepMessage]: the
    test step of the pickle step, its started record, its finished record. *)
Definition getStepResult (pickleStep : PickleStep) (testCase : TestCase)
  : M TestResultStep :=
  w <- get ;;
  testStep <- found
    (find (λ step, bool_decide (testStep_pickleStepId step = Some (pickleStep_id pickleStep)))
          (testCase_testSteps testCase))
    "TestCase step not found" ;;
  testStepStarted <- found
    (find (λ step, bool_decide (testStepStarted_testStepId step = testStep_id testStep))
          (testStepsStarted (this w)))
    "TestStepStarted not found" ;;
  testStepFinished <- found
    (find (λ step, bool_decide (testStepFinished_testStepId step
                                = testStepStarted_testStepId testStepStarted))
          (testStepsFinished (this w)))
    "TestStepFinished not found" ;;
  ret {| step_title := pickleStep_text pickleStep;
         step_startedOn := mapDate (seconds (testStepStarted_timestamp testStepStarted));
         step_duration :=
           seconds (testStepResult_duration (testStepFinished_testStepResult testStepFinished));
         step_completedOn := mapDate (seconds (testStepFinished_timestamp testStepFinished));
         step_outcome :=
           mapStatus (testStepResult_status (testStepFinished_testStepResult testStepFinished)) |}.

Definition getStepMessage (pickleStep : PickleStep) (testCase : TestCase)
  : M (option string) :=
  w <- get ;;
  testStep <- found
    (find (λ step, bool_decide (testStep_pickleStepId step = Some (pickleStep_id pickleStep)))
          (testCase_testSteps testCase))
    "TestCase step not found" ;;
  testStepStarted <- found
    (find (λ step, bool_decide (testStepStarted_testStepId step = testStep_id testStep))
          (testStepsStarted (this w)))
    "TestStepStarted not found" ;;
  testStepFinished <- found
    (find (λ step, bool_decide (testStepFinished_testStepId step
                                = testStepStarted_testStepId testStepStarted))
          (testStepsFinished (this w)))
    "TestStepFinished not found" ;;
  ret (testStepResult_message (testStepFinished_testStepResult testStepFinished)).

Definition getAttachments (testCaseId : string) : M (Property (list Attachment)) :=
  w <- get ;;
  match getProp (attachments (this w)) testCaseId with
  | Undefined => ret Undefined
  | p => ret p
  end.

(** The callback of the filter in [getTestResult]: [arr] is the array the
    filter runs on, so [arr[i - 1]] is the step before [item] in the
    unfiltered array; at [i = 0] it is [undefined]. *)
Definition keepStep (item : TestResultStep) (i : Z) (arr : list TestResultStep) : bool :=
  let prevOutcome := step_outcome <$> js_at arr (i - 1) in
  if bool_decide (step_outcome item = "Skipped")
     && match prevOutcome with
        | Some prev => bool_decide (prev ∈ ["Failed"; "Skipped"])
        | None => false
        end
  then false
  else true.

Definition cascadingSkipFilter (arr : list TestResultStep) : list TestResultStep :=
  js_filter keepStep arr.

(** [for (const step of pickle.steps) { ... messages.push(message) }]. *)
Fixpoint collectStepMessages (steps : list PickleStep) (testCase : TestCase)
  : M (list string) :=
  match steps with
  | [] => ret []
  | step :: rest =>
      message <- getStepMessage step testCase ;;
      later <- collectStepMessages rest testCase ;;
      ret (match message with
           | Some m => m :: later
           | None => later
           end)
  end.

Definition getTestResult (testId : string) : M TestResult :=
  w <- get ;;
  testCase <- found
    (find (λ testCase, bool_decide (testCase_id testCase = testId)) (testCases (this w)))
    "TestCase not found" ;;
  pickle <- found
    (find (λ pickle, bool_decide (pickle_id pickle = testCase_pickleId testCase))
          (pickles (this w)))
    "Pickle not found" ;;
  let tags := parseTags (pickle_tags pickle) in
  externalId <- found (tags_externalId tags) "External ID is not provided" ;;
  (* the callback's parameter shadows the outer [testCase] *)
  testCaseStarted <- found
    (find (λ testCase, bool_decide (testCaseStarted_id testCase = testCaseStarted_id testCase))
          (testCasesStarted (this w)))
    "TestCaseStarted not found" ;;
  testCaseFinished <- found
    (find (λ testCase, bool_decide (testCaseFinished_testCaseStartedId testCase
                                    = testCaseStarted_id testCaseStarted))
          (testCasesFinished (this w)))
    "TestCaseFinished not found" ;;
  mapped <- mapM (λ step, getStepResult step testCase) (pickle_steps pickle) ;;
  let steps := cascadingSkipFilter mapped in
  messages' <- collectStepMessages (pickle_steps pickle) testCase ;;
  let resultLinks' :=
    match getProp (resultLinks (this w)) (testCase_id testCase) with
    | Own r => Own (arrays w r)
    | Inherited => Inherited
    | Undefined => Own []
    end in
  message' <-
    match getProp (messages (this w)) (testCase_id testCase) with
    | Own ms => ret (Some (join doubleNewline ms))
    | Inherited => throw TypeError
    | Undefined => ret None
    end ;;
  attachments' <- getAttachments (testCase_id testCase) ;;
  ret {| externalId := externalId;
         displayName := default (pickle_name pickle) (tags_name tags);
         links := tags_links tags;
         result_resultLinks := resultLinks';
         stepResults := steps;
         outcome := calculateResultOutcome (map step_outcome steps);
         startedOn := mapDate (seconds (testCaseStarted_timestamp testCaseStarted));
         completedOn := mapDate (seconds (testCaseFinished_timestamp testCaseFinished));
         duration := seconds (testCaseFinished_timestamp testCaseFinished)
                     - seconds (testCaseStarted_timestamp testCaseStarted);
         message := message';
         traces := join doubleNewline messages';
         result_attachments := attachments' |}.

Definition addMessage (testCaseId : string) (message : string) : M unit :=
  w <- get ;;
  match getProp (messages (this w)) testCaseId with
  | Undefined =>
      modify (with_this (λ s,
        mkStorage (gherkinDocuments s) (pickles s) (testCases s)
          (testCasesStarted s) (testCasesFinished s) (testStepsStarted s)
          (testStepsFinished s) (<[testCaseId := [message]]> (messages s))
          (resultLinks s) (attachments s)))
  | Own ms =>
      modify (with_this (λ s,
        mkStorage (gherkinDocuments s) (pickles s) (testCases s)
          (testCasesStarted s) (testCasesFinished s) (testStepsStarted s)
          (testStepsFinished s) (<[testCaseId := ms ++ [message]]> (messages s))
          (resultLinks s) (attachments s)))
  | Inherited => throw TypeError
  end.

(** [links] is the caller's array: the first call for a case stores the
    array itself; a later call pushes the elements of [links] into the array
    stored, which may be shared with other cases or be [links] itself. *)
Definition addLinks (testCaseId : string) (links : loc) : M unit :=
  w <- get ;;
  match getProp (resultLinks (this w)) testCaseId with
  | Undefined =>
      modify (with_this (λ s,
        mkStorage (gherkinDocuments s) (pickles s) (testCases s)
          (testCasesStarted s) (testCasesFinished s) (testStepsStarted s)
          (testStepsFinished s) (messages s)
          (<[testCaseId := links]> (resultLinks s)) (attachments s)))
  | Own r =>
      modify (λ w, mkWorld (this w) (<[r := arrays w r ++ arrays w links]> (arrays w)))
  | Inherited => throw TypeError
  end.

(** On an existing entry, [concat] builds a new array and the method drops
    it: the stored array is not touched. *)
Definition addAttachment (testCaseId : string) (attachmentId : string) : M unit :=
  w <- get ;;
  let attachment := mkAttachment attachmentId in
  match getProp (attachments (this w)) testCaseId with
  | Undefined =>
      modify (with_this (λ s,
        mkStorage (gherkinDocuments s) (pickles s) (testCases s)
          (testCasesStarted s) (testCasesFinished s) (testStepsStarted s)
          (testStepsFinished s) (messages s) (resultLinks s)
          (<[testCaseId := [attachment]]> (attachments s))))
  | Own stored =>
      let _ := stored ++ [attachment] in ret tt
  | Inherited => throw TypeError
  end.

End Methods.

(** ** Sequences of calls *)

Section Calls.
Context `{Collab : Collaborators}.

(** One call of a public method of the storage. *)
Inductive Call :=
  | IsResolvedTestCase (testCase : TestCase)
  | SaveGherkinDocument (document : GherkinDocument)
  | SavePickle (pickle : Pickle)
  | SaveTestCase (testCase : TestCase)
  | SaveTestCaseStarted (testCaseStarted : TestCaseStarted)
  | SaveTestCaseFinished (testCaseFinished : TestCaseFinished)
  | SaveTestStepStarted (testStepStarted : TestStepStarted)
  | SaveTestStepFinished (testStepFinished : TestStepFinished)
  | GetTestResult (testId : string)
  | GetStepResult (pickleStep : PickleStep) (testCase : TestCase)
  | GetStepMessage (pickleStep : PickleStep) (testCase : TestCase)
  | GetAttachments (testCaseId : string)
  | AddMessage (testCaseId : string) (message : string)
  | AddLinks (testCaseId : string) (links : loc)
  | AddAttachment (testCaseId : string) (attachmentId : string).

(** The state a call leaves, whether it returns or throws. *)
Definition call (c : Call) (w : World) : World :=
  match c with
  | IsResolvedTestCase testCase => snd (isResolvedTestCase testCase w)
  | SaveGherkinDocument document => snd (saveGherkinDocument document w)
  | SavePickle pickle => snd (savePickle pickle w)
  | SaveTestCase testCase => snd (saveTestCase testCase w)
  | SaveTestCaseStarted testCaseStarted => snd (saveTestCaseStarted testCaseStarted w)
  | SaveTestCaseFinished testCaseFinished => snd (saveTestCaseFinished testCaseFinished w)
  | SaveTestStepStarted testStepStarted => snd (saveTestStepStarted testStepStarted w)
  | SaveTestStepFinished testStepFinished => snd (saveTestStepFinished testStepFinished w)
  | GetTestResult testId => snd (getTestResult testId w)
  | GetStepResult pickleStep testCase => snd (getStepResult pickleStep testCase w)
  | GetStepMessage pickleStep testCase => snd (getStepMessage pickleStep testCase w)
  | GetAttachments testCaseId => snd (getAttachments testCaseId w)
  | AddMessage testCaseId message => snd (addMessage testCaseId message w)
  | AddLinks testCaseId links => snd (addLinks testCaseId links w)
  | AddAttachment testCaseId attachmentId => snd (addAttachment testCaseId attachmentId w)
  end.

Definition calls (cs : list Call) (w : World) : World := fold_left (λ w c, call c w) cs w.

(** The links accumulated for a case: the contents of the array stored. *)
Definition linksOf (w : World) (testCaseId : string) : option (list Link) :=
  arrays w <$> resultLinks (this w) !! testCaseId.

End Calls.

(** ** The filter as the specification words it *)

Section FilteredWindow.
Context `{Collab : Collaborators}.

(** A single pass from left to right that compares a Skipped step with the
    outcome of the last step kept so far ([last], absent before the first
    step is kept), not with the step before it in the input. *)
Fixpoint filteredWindowPass (last : option Outcome) (l : list TestResultStep)
  : list TestResultStep :=
  match l with
  | [] => []
  | item :: rest =>
      if bool_decide (step_outcome item = "Skipped")
         && match last with
            | Some prev => bool_decide (prev ∈ ["Failed"; "Skipped"])
            | None => false
            end
      then filteredWindowPass last rest
      else item :: filteredWindowPass (Some (step_outcome item)) rest
  end.

Definition filteredWindowFilter (arr : list TestResultStep) : list TestResultStep :=
  filteredWindowPass None arr.

End FilteredWindow.

(** ** Predicates of the properties *)

(** A computation that hands back the state it was given, whether it returns
    or throws. *)
Definition readonly {A} (m : M A) : Prop := ∀ w, snd (m w) = w.

(** The test both filters apply to the outcome they compare with. *)
Definition cascades (prev : option Outcome) : bool :=
  match prev with
  | Some prev => bool_decide (prev ∈ ["Failed"; "Skipped"])
  | None => false
  end.

(** An entry, once there, stays, and what it held is a prefix of what it
    holds. *)
Definition grows {A} (before after : option (list A)) : Prop :=
  match before with
  | None => True
  | Some l => ∃ l', after = Some l' ∧ l `prefix_of` l'
  end.

(** The state [w'] extends [w]: every accumulator entry of [w] is still
    there, bound to the same link array where it is a link entry, and every
    array has only gained elements at its end. *)
Record extends (w w' : World) : Prop := mkExtends {
  ext_messages : ∀ id, grows (messages (this w) !! id) (messages (this w') !! id);
  ext_resultLinks : ∀ id r,
    resultLinks (this w) !! id = Some r → resultLinks (this w') !! id = Some r;
  ext_arrays : ∀ r, arrays w r `prefix_of` arrays w' r;
  ext_attachments : ∀ id,
    grows (attachments (this w) !! id) (attachments (this w') !! id) }.

(** Every event array of [w] is the start of the one of [w']. *)
Record eventsGrow (w w' : World) : Prop := mkEventsGrow {
  grow_gherkinDocuments :
    gherkinDocuments (this w) `prefix_of` gherkinDocuments (this w');
  grow_pickles : pickles (this w) `prefix_of` pickles (this w');
  grow_testCases : testCases (this w) `prefix_of` testCases (this w');
  grow_testCasesStarted :
    testCasesStarted (this w) `prefix_of` testCasesStarted (this w');
  grow_testCasesFinished :
    testCasesFinished (this w) `prefix_of` testCasesFinished (this w');
  grow_testStepsStarted :
    testStepsStarted (this w) `prefix_of` testStepsStarted (this w');
  grow_testStepsFinished :
    testStepsFinished (this w) `prefix_of` testStepsFinished (this w') }.

(** The calls of [addMessage], [addLinks] and [addAttachment]. *)
Definition isAdder (c : Call) : bool :=
  match c with
  | AddMessage _ _ | AddLinks _ _ | AddAttachment _ _ => true
  | _ => false
  end.

(** The event array a save call pushes to. *)
Inductive Category :=
  | Documents | Pickles | Cases | CasesStarted | CasesFinished
  | StepsStarted | StepsFinished.

Definition category (c : Call) : option Category :=
  match c with
  | SaveGherkinDocument _ => Some Documents
  | SavePickle _ => Some Pickles
  | SaveTestCase _ => Some Cases
  | SaveTestCaseStarted _ => Some CasesStarted
  | SaveTestCaseFinished _ => Some CasesFinished
  | SaveTestStepStarted _ => Some StepsStarted
  | SaveTestStepFinished _ => Some StepsFinished
  | _ => None
  end.

(** No accumulator has an own entry under a member name of
    [Object.prototype]. *)
Definition noOwnPrototypeKeys (w : World) : Prop :=
  ∀ k, k ∈ objectPrototypeKeys →
    messages (this w) !! k = None
    ∧ resultLinks (this w) !! k = None
    ∧ attachments (this w) !! k = None.

(** No Skipped step stands right after a Failed or Skipped one; [prev] is
    the outcome before the first step of [l]. *)
Fixpoint settled (prev : option Outcome) (l : list Outcome) : bool :=
  match l with
  | [] => true
  | o :: rest =>
      negb (bool_decide (o = "Skipped") && cascades prev) && settled (Some o) rest
  end.

(** The errors of the step lookups. *)
Definition stepErrors : list Exn :=
  [ Error "TestCase step not found"; Error "TestStepStarted not found";
    Error "TestStepFinished not found" ].

(** The exceptions of [getTestResult]. *)
Definition resultErrors : list Exn :=
  [ Error "TestCase not found"; Error "Pickle not found";
    Error "External ID is not provided"; Error "TestCaseStarted not found";
    Error "TestCaseFinished not found" ] ++ stepErrors ++ [ TypeError ].

Section ResultFields.
Context `{Collab : Collaborators}.

(** The three fields of a result that [getTestResult] reads from the
    accumulators of [w] for the case [testCaseId]: [resultLinks] (line 138),
    [message] (line 152) and [attachments] (line 154). *)
Definition resultLinksOf (w : World) (testCaseId : string) : Property (list Link) :=
  match getProp (resultLinks (this w)) testCaseId with
  | Own r => Own (arrays w r)
  | Inherited => Inherited
  | Undefined => Own []
  end.

Definition messageOf (w : World) (testCaseId : string) : option string :=
  match getProp (messages (this w)) testCaseId with
  | Own ms => Some (join doubleNewline ms)
  | _ => None
  end.

(** The result [r] with these three fields replaced. *)
Definition withAccumulated (resultLinks' : Property (list Link))
    (message' : option string) (attachments' : Property (list Attachment))
    (r : TestResult) : TestResult :=
  mkTestResult (externalId r) (displayName r) (links r) resultLinks'
    (stepResults r) (outcome r) (startedOn r) (completedOn r) (duration r)
    message' (traces r) attachments'.

End ResultFields.

(** ** A concrete run: collaborators and two scenarios *)

Module Demo.

(** The text of [s] after the prefix [p], when [s] starts with [p]. *)
Definition afterPrefix (p s : string) : option string :=
  if String.prefix p s
  then Some (String.substring (String.length p) (String.length s - String.length p) s)
  else None.

Definition firstTagValue (p : string) (tags : list PickleTag) : option string :=
  list_find (λ o, is_Some o) (map (λ t, afterPrefix p (tag_name t)) tags) ≫= snd.

#[global] Instance collaborators : Collaborators := {|
  Date := Z;
  parseTags tags :=
    mkParsedTags (firstTagValue "@ExternalId=" tags)
                 (firstTagValue "@DisplayName=" tags) [];
  mapDate s := (s * 1000)%Z;
  mapStatus st :=
    match st with
    | PASSED => "Passed"
    | FAILED => "Failed"
    | SKIPPED | PENDING | UNDEFINED | AMBIGUOUS => "Skipped"
    | UNKNOWN => "Blocked"
    end;
  calculateResultOutcome os :=
    if bool_decide ("Failed" ∈ os) then "Failed"
    else if bool_decide ("Skipped" ∈ os) then "Skipped"
    else "Passed" |}.

Definition emptyWorld : World := mkWorld emptyStorage (λ _, []).

Definition at_ (s : Z) : Timestamp := mkTimestamp s 0.

(** The two events of test step [t], finished with status [st]. *)
Definition stepEvents (t : string) (st : TestStepResultStatus) (s : Z) : list Call :=
  [ SaveTestStepStarted (mkTestStepStarted t (at_ s));
    SaveTestStepFinished
      (mkTestStepFinished t (mkTestStepResult (at_ 1) None st) (at_ (s + 1))) ].

(** Scenario "login": external identifier and a display name in its tags,
    one passing step, run from second 10 to second 15. *)
Definition loginPickle : Pickle :=
  mkPickle "pickle-1" "User logs in" [mkPickleStep "ps-1" "Given a user"]
    [mkPickleTag "@ExternalId=login" "ast-1"; mkPickleTag "@DisplayName=Login" "ast-2"].

Definition loginCase : TestCase :=
  mkTestCase "case-1" "pickle-1" [mkTestStep "ts-1" (Some "ps-1")].

Definition loginRun : list Call :=
  [ SavePickle loginPickle; SaveTestCase loginCase;
    SaveTestCaseStarted (mkTestCaseStarted "started-1" "case-1" (at_ 10)) ]
  ++ stepEvents "ts-1" PASSED 11
  ++ [ SaveTestCaseFinished (mkTestCaseFinished "started-1" (at_ 15)) ].

(** Scenario "checkout": external identifier, no display name, six steps
    Passed, Failed, Skipped, Skipped, Passed, Skipped, run from second 20 to
    second 27. *)
Definition checkoutPickle : Pickle :=
  mkPickle "pickle-2" "User checks out"
    [ mkPickleStep "ps-21" "Given a cart"; mkPickleStep "ps-22" "When the user pays";
      mkPickleStep "ps-23" "Then a receipt is shown"; mkPickleStep "ps-24" "And stock is reduced";
      mkPickleStep "ps-25" "And the cart is cleared"; mkPickleStep "ps-26" "And a mail is sent" ]
    [mkPickleTag "@ExternalId=checkout" "ast-3"].

Definition checkoutCase : TestCase :=
  mkTestCase "case-2" "pickle-2"
    [ mkTestStep "ts-21" (Some "ps-21"); mkTestStep "ts-22" (Some "ps-22");
      mkTestStep "ts-23" (Some "ps-23"); mkTestStep "ts-24" (Some "ps-24");
      mkTestStep "ts-25" (Some "ps-25"); mkTestStep "ts-26" (Some "ps-26") ].

Definition checkoutRun : list Call :=
  [ SavePickle checkoutPickle; SaveTestCase checkoutCase;
    SaveTestCaseStarted (mkTestCaseStarted "started-2" "case-2" (at_ 20)) ]
  ++ stepEvents "ts-21" PASSED 20
  ++ stepEvents "ts-22" FAILED 21
  ++ stepEvents "ts-23" SKIPPED 22
  ++ stepEvents "ts-24" SKIPPED 23
  ++ stepEvents "ts-25" PASSED 24
  ++ stepEvents "ts-26" SKIPPED 25
  ++ [ SaveTestCaseFinished (mkTestCaseFinished "started-2" (at_ 27)) ].

(** Scenario "draft": a pickle without an external identifier. *)
Definition draftPickle : Pickle := mkPickle "pickle-3" "Draft" [] [mkPickleTag "@wip" "ast-4"].
Definition draftCase : TestCase := mkTestCase "case-3" "pickle-3" [].

Definition onlyCheckout : World := calls checkoutRun emptyWorld.
Definition onlyLogin : World := calls loginRun emptyWorld.
Definition loginThenCheckout : World := calls (loginRun ++ checkoutRun) emptyWorld.
Definition withDraft : World := calls [SavePickle draftPickle; SaveTestCase draftCase] emptyWorld.

End Demo.


(** * Properties *)

(** ** Methods that only read *)

Section ReadOnly.
Context `{Collab : Collaborators}.

Lemma readonly_ret {A} (a : A) : readonly (ret a).
Proof. by intros w. Qed.

Lemma readonly_throw {A} (e : Exn) : readonly (@throw A e).
Proof. by intros w. Qed.

Lemma readonly_get : readonly get.
Proof. by intros w. Qed.

Lemma readonly_found {A} (o : option A) msg : readonly (found o msg).
Proof. destruct o; [apply readonly_ret | apply readonly_throw]. Qed.

Lemma readonly_bind {A B} (m : M A) (k : A → M B) :
  readonly m → (∀ a, readonly (k a)) → readonly (bind m k).
Proof.
  intros Hm Hk w. unfold bind.
  specialize (Hm w). destruct (m w) as [[a|e] w']; simpl in Hm; subst w'.
  - apply Hk.
  - done.
Qed.

Lemma readonly_mapM {A B} (f : A → M B) (arr : list A) :
  (∀ a, readonly (f a)) → readonly (mapM f arr).
Proof.
  intros Hf. induction arr as [|a rest IH]; simpl.
  - apply readonly_ret.
  - apply readonly_bind; [apply Hf | intros b].
    apply readonly_bind; [apply IH | intros bs]. apply readonly_ret.
Qed.

Ltac readonly_steps :=
  repeat first
    [ apply readonly_ret | apply readonly_throw | apply readonly_get
    | apply readonly_found
    | apply readonly_bind; [| intros ?] ].

Lemma readonly_isResolvedTestCase testCase : readonly (isResolvedTestCase testCase).
Proof. unfold isResolvedTestCase. readonly_steps. Qed.

Lemma readonly_getStepResult pickleStep testCase :
  readonly (getStepResult pickleStep testCase).
Proof. unfold getStepResult. readonly_steps. Qed.

Lemma readonly_getStepMessage pickleStep testCase :
  readonly (getStepMessage pickleStep testCase).
Proof. unfold getStepMessage. readonly_steps. Qed.

Lemma readonly_getAttachments testCaseId : readonly (getAttachments testCaseId).
Proof.
  unfold getAttachments. apply readonly_bind; [apply readonly_get | intros w].
  destruct (getProp _ _); apply readonly_ret.
Qed.

Lemma readonly_collectStepMessages steps testCase :
  readonly (collectStepMessages steps testCase).
Proof.
  induction steps as [|step rest IH]; simpl.
  - apply readonly_ret.
  - apply readonly_bind; [apply readonly_getStepMessage | intros message].
    apply readonly_bind; [apply IH | intros later]. apply readonly_ret.
Qed.

Lemma readonly_getTestResult testId : readonly (getTestResult testId).
Proof.
  unfold getTestResult.
  apply readonly_bind; [apply readonly_get | intros w].
  do 5 (apply readonly_bind; [apply readonly_found | intros ?]).
  apply readonly_bind;
    [apply readonly_mapM; intros; apply readonly_getStepResult | intros mapped].
  apply readonly_bind; [apply readonly_collectStepMessages | intros ms].
  apply readonly_bind; [| intros message'].
  { destruct (getProp _ _); readonly_steps. }
  apply readonly_bind; [apply readonly_getAttachments | intros atts].
  apply readonly_ret.
Qed.

(** A read-only computation returns its state as it is. *)
Lemma readonly_run {A} (m : M A) w : readonly m → m w = (fst (m w), w).
Proof. intros Hm. specialize (Hm w). destruct (m w); simpl in *; by subst. Qed.

End ReadOnly.

(** ** What [getTestResult] finds and returns *)

Section Assembly.
Context `{Collab : Collaborators}.

(** The predicate of the started-record lookup compares a record's
    identifier with itself: the lookup yields the first record stored. *)
Lemma find_testCaseStarted_head (l : list TestCaseStarted) :
  find (λ testCase, bool_decide (testCaseStarted_id testCase = testCaseStarted_id testCase)) l
  = head l.
Proof. destruct l as [|x l]; [done|]. simpl. by rewrite bool_decide_eq_true_2. Qed.

(** [getStepMessage] follows the lookup chain of [getStepResult]: where the
    one returns, so does the other. *)
Lemma getStepMessage_returns pickleStep testCase w r :
  fst (getStepResult pickleStep testCase w) = Return r →
  ∃ m, getStepMessage pickleStep testCase w = (Return m, w).
Proof.
  unfold getStepResult, getStepMessage, bind, get, found, ret, throw.
  destruct (find _ (testCase_testSteps testCase)) as [testStep|]; [|done].
  destruct (find _ (testStepsStarted (this w))) as [testStepStarted|]; [|done].
  destruct (find _ (testStepsFinished (this w))) as [testStepFinished|]; [|done].
  intros _. by eexists.
Qed.

Lemma mapM_cons_returns {A B} (f : A → M B) a rest w bs :
  (∀ a, readonly (f a)) →
  fst (mapM f (a :: rest) w) = Return bs →
  ∃ b bs', bs = b :: bs' ∧ fst (f a w) = Return b ∧ fst (mapM f rest w) = Return bs'.
Proof.
  intros Hf. simpl. unfold bind at 1.
  rewrite (readonly_run (f a) w (Hf a)).
  destruct (fst (f a w)) as [b|e]; [|done].
  unfold bind. rewrite (readonly_run (mapM f rest) w (readonly_mapM f rest Hf)).
  destruct (fst (mapM f rest w)) as [bs'|e]; [|done].
  simpl. intros [= <-]. by exists b, bs'.
Qed.

Lemma collectStepMessages_returns steps testCase w mapped :
  fst (mapM (λ step, getStepResult step testCase) steps w) = Return mapped →
  ∃ ms, collectStepMessages steps testCase w = (Return ms, w).
Proof.
  revert mapped. induction steps as [|step rest IH]; intros mapped Hm.
  - by eexists.
  - apply mapM_cons_returns in Hm as (b & bs' & _ & Hb & Hrest);
      [|intros; apply readonly_getStepResult].
    apply getStepMessage_returns in Hb as [m Hm].
    destruct (IH _ Hrest) as [ms Hms].
    simpl. unfold bind. rewrite Hm, Hms. by eexists.
Qed.

(** When every lookup succeeds, [getTestResult] returns, and these are the
    fields of the record it builds. The started record is the first one
    stored; the message lookup must not hit a member of [Object.prototype]. *)
Lemma getTestResult_returns w testId testCase pickle ext started finished mapped :
  find (λ testCase, bool_decide (testCase_id testCase = testId)) (testCases (this w))
    = Some testCase →
  find (λ pickle, bool_decide (pickle_id pickle = testCase_pickleId testCase))
       (pickles (this w)) = Some pickle →
  tags_externalId (parseTags (pickle_tags pickle)) = Some ext →
  head (testCasesStarted (this w)) = Some started →
  find (λ testCase, bool_decide (testCaseFinished_testCaseStartedId testCase
                                 = testCaseStarted_id started))
       (testCasesFinished (this w)) = Some finished →
  fst (mapM (λ step, getStepResult step testCase) (pickle_steps pickle) w) = Return mapped →
  getProp (messages (this w)) (testCase_id testCase) ≠ Inherited →
  ∃ r, getTestResult testId w = (Return r, w)
       ∧ externalId r = ext
       ∧ displayName r = default (pickle_name pickle) (tags_name (parseTags (pickle_tags pickle)))
       ∧ stepResults r = cascadingSkipFilter mapped
       ∧ duration r = seconds (testCaseFinished_timestamp finished)
                      - seconds (testCaseStarted_timestamp started).
Proof.
  intros Hcase Hpickle Hext Hstarted Hfinished Hmapped Hmsg.
  destruct (collectStepMessages_returns _ _ _ _ Hmapped) as [ms Hms].
  assert (Hmap : mapM (λ step, getStepResult step testCase) (pickle_steps pickle) w
                 = (Return mapped, w)).
  { rewrite readonly_run, Hmapped; [done|].
    apply readonly_mapM; intros; apply readonly_getStepResult. }
  unfold getTestResult, bind, get.
  rewrite Hcase. simpl. rewrite Hpickle. simpl. rewrite Hext. simpl.
  rewrite find_testCaseStarted_head, Hstarted. simpl. rewrite Hfinished. simpl.
  rewrite Hmap, Hms.
  destruct (getProp (messages (this w)) (testCase_id testCase)) as [stored| |];
    [|done|]; simpl;
    (rewrite (readonly_run _ w (readonly_getAttachments _));
     destruct (fst (getAttachments (testCase_id testCase) w)) as [atts|e] eqn:Hatts;
     [ eexists; split; [reflexivity|]; simpl; done
     | exfalso; revert Hatts; unfold getAttachments, bind, get, ret;
       by destruct (getProp _ _) ]).
Qed.

End Assembly.

(** ** The cascading-skip filter *)

Section Filter.
Context `{Collab : Collaborators}.

(** The element before position [length pre] of [pre ++ suf] is the last
    element of [pre]; before position 0 there is none. *)
Lemma js_at_before {A} (pre suf : list A) :
  js_at (pre ++ suf) (Z.of_nat (length pre) - 1) = list.last pre.
Proof.
  unfold js_at. destruct pre as [|x pre] using rev_ind; [done|].
  rewrite length_app, last_snoc. simpl.
  destruct (Z.ltb_spec (Z.of_nat (length pre + 1) - 1) 0) as [Hlt|_]; [lia|].
  replace (Z.to_nat (Z.of_nat (length pre + 1) - 1)) with (length pre) by lia.
  rewrite <- app_assoc. by apply list_lookup_middle.
Qed.

(** The two passes agree on a suffix as long as the step before it in the
    input and the last step kept pass the same test. *)
Lemma filter_from_window (pre suf : list TestResultStep) (lastKept : option Outcome) :
  cascades (step_outcome <$> list.last pre) = cascades lastKept →
  filter_from (λ item i, keepStep item i (pre ++ suf)) (Z.of_nat (length pre)) suf
  = filteredWindowPass lastKept suf.
Proof.
  revert pre lastKept. induction suf as [|item rest IH]; intros pre lastKept Hinv; [done|].
  assert (Hnext : ∀ kept,
    cascades (Some (step_outcome item)) = cascades kept →
    filter_from (λ item' i, keepStep item' i (pre ++ item :: rest))
                (Z.of_nat (length pre) + 1) rest
    = filteredWindowPass kept rest).
  { intros kept Hk.
    replace (pre ++ item :: rest) with ((pre ++ [item]) ++ rest)
      by (by rewrite <- app_assoc).
    replace (Z.of_nat (length pre) + 1) with (Z.of_nat (length (pre ++ [item])))
      by (rewrite length_app; simpl; lia).
    apply IH. by rewrite last_snoc. }
  simpl. unfold keepStep at 1. rewrite js_at_before.
  change (match step_outcome <$> list.last pre with
          | Some prev => bool_decide (prev ∈ ["Failed"; "Skipped"])
          | None => false
          end) with (cascades (step_outcome <$> list.last pre)).
  change (match lastKept with
          | Some prev => bool_decide (prev ∈ ["Failed"; "Skipped"])
          | None => false
          end) with (cascades lastKept).
  rewrite Hinv.
  destruct (bool_decide (step_outcome item = "Skipped")) eqn:Hskipped; simpl.
  - destruct (cascades lastKept) eqn:Hlast.
    + apply Hnext. rewrite Hlast.
      apply bool_decide_eq_true_1 in Hskipped. by rewrite Hskipped.
    + f_equal. by apply Hnext.
  - f_equal. by apply Hnext.
Qed.

(** C3: on every sequence of step results, the filter of [getTestResult],
    which looks at the element before the step in the unfiltered array,
    keeps the same steps as a left-to-right pass that compares each Skipped
    step with the last step kept. *)
Theorem cascadingSkipFilter_filteredWindow (arr : list TestResultStep) :
  cascadingSkipFilter arr = filteredWindowFilter arr.
Proof.
  unfold cascadingSkipFilter, js_filter, filteredWindowFilter.
  by apply (filter_from_window [] arr None).
Qed.

(** The filter on six step results with the outcomes Passed, Failed,
    Skipped, Skipped, Passed, Skipped. *)
Lemma cascadingSkipFilter_six (mapped : list TestResultStep) :
  map step_outcome mapped = ["Passed"; "Failed"; "Skipped"; "Skipped"; "Passed"; "Skipped"] →
  map step_outcome (cascadingSkipFilter mapped) = ["Passed"; "Failed"; "Passed"; "Skipped"].
Proof.
  intros H.
  do 6 (destruct mapped as [|[? ? ? ? ?] mapped]; [done|]).
  destruct mapped; [|done].
  simpl in H. injection H as -> -> -> -> -> ->.
  reflexivity.
Qed.

End Filter.

(** ** Queries *)

Section Queries.
Context `{Collab : Collaborators}.

Lemma isResolvedTestCase_loop_true testCase (ps : list Pickle) :
  isResolvedTestCase_loop testCase ps = true ↔
  ∃ pickle, pickle ∈ ps
            ∧ pickle_id pickle = testCase_pickleId testCase
            ∧ tags_externalId (parseTags (pickle_tags pickle)) ≠ None.
Proof.
  induction ps as [|pickle rest IH]; simpl.
  - split; [done|]. intros (p & Hp & _). by apply elem_of_nil in Hp.
  - destruct (bool_decide (tags_externalId (parseTags (pickle_tags pickle)) ≠ None))
      eqn:Hext; simpl.
    + destruct (bool_decide (testCase_pickleId testCase = pickle_id pickle)) eqn:Hid.
      * split; [intros _|done].
        apply bool_decide_eq_true_1 in Hext, Hid.
        exists pickle. split; [apply list_elem_of_here|done].
      * apply bool_decide_eq_false_1 in Hid. rewrite IH.
        split; intros (p & Hp & Hpid & Hpext).
        -- exists p. split; [by apply list_elem_of_further|done].
        -- apply elem_of_cons in Hp as [->|Hp]; [by destruct Hid|by exists p].
    + apply bool_decide_eq_false_1 in Hext. rewrite IH.
      split; intros (p & Hp & Hpid & Hpext).
      * exists p. split; [by apply list_elem_of_further|done].
      * apply elem_of_cons in Hp as [->|Hp]; [by destruct Hext|by exists p].
Qed.

(** C5: for every store and every test case, [isResolvedTestCase] returns, and
    it returns true exactly when some stored pickle has the identifier the
    case refers to and tags that parse to a defined external identifier. *)
Theorem isResolvedTestCase_iff (w : World) (testCase : TestCase) :
  ∃ b, isResolvedTestCase testCase w = (Return b, w)
       ∧ (b = true ↔
          ∃ pickle, pickle ∈ pickles (this w)
                    ∧ pickle_id pickle = testCase_pickleId testCase
                    ∧ tags_externalId (parseTags (pickle_tags pickle)) ≠ None).
Proof.
  exists (isResolvedTestCase_loop testCase (pickles (this w))).
  split; [done|]. apply isResolvedTestCase_loop_true.
Qed.

(** C9: when no stored case has the identifier asked for, [getTestResult]
    throws the error 'TestCase not found' and returns no result; the store
    stays as it was. *)
Theorem getTestResult_unknown_case (w : World) (testId : string) :
  Forall (λ testCase, testCase_id testCase ≠ testId) (testCases (this w)) →
  getTestResult testId w = (Throw (Error "TestCase not found"), w).
Proof.
  intros Hnone. unfold getTestResult, bind, get.
  assert (Hfind : find (λ testCase, bool_decide (testCase_id testCase = testId))
                       (testCases (this w)) = None).
  { induction Hnone as [|testCase rest Hne _ IH]; [done|].
    simpl. by rewrite bool_decide_eq_false_2. }
  by rewrite Hfind.
Qed.

(** C6: when the case is found and its pickle is found, and the pickle's
    tags parse to no external identifier, [getTestResult] throws the error
    'External ID is not provided' and returns no result. *)
Theorem getTestResult_missing_externalId (w : World) (testId : string)
    (testCase : TestCase) (pickle : Pickle) :
  find (λ testCase, bool_decide (testCase_id testCase = testId)) (testCases (this w))
    = Some testCase →
  find (λ pickle, bool_decide (pickle_id pickle = testCase_pickleId testCase))
       (pickles (this w)) = Some pickle →
  tags_externalId (parseTags (pickle_tags pickle)) = None →
  getTestResult testId w = (Throw (Error "External ID is not provided"), w).
Proof.
  intros Hcase Hpickle Hext. unfold getTestResult, bind, get.
  rewrite Hcase. simpl. rewrite Hpickle. simpl. by rewrite Hext.
Qed.

(** C7: when the lookups of [getTestResult] succeed, the result's
    [displayName] is the name the pickle's tags supply, whatever the pickle's
    own name is; when the tags supply no name, it is the pickle's own name. *)
Theorem getTestResult_displayName (w : World) (testId : string)
    (testCase : TestCase) (pickle : Pickle) (ext : string)
    (started : TestCaseStarted) (finished : TestCaseFinished)
    (mapped : list TestResultStep) :
  find (λ testCase, bool_decide (testCase_id testCase = testId)) (testCases (this w))
    = Some testCase →
  find (λ pickle, bool_decide (pickle_id pickle = testCase_pickleId testCase))
       (pickles (this w)) = Some pickle →
  tags_externalId (parseTags (pickle_tags pickle)) = Some ext →
  head (testCasesStarted (this w)) = Some started →
  find (λ testCase, bool_decide (testCaseFinished_testCaseStartedId testCase
                                 = testCaseStarted_id started))
       (testCasesFinished (this w)) = Some finished →
  fst (mapM (λ step, getStepResult step testCase) (pickle_steps pickle) w) = Return mapped →
  getProp (messages (this w)) (testCase_id testCase) ≠ Inherited →
  ∃ r, getTestResult testId w = (Return r, w)
       ∧ displayName r = match tags_name (parseTags (pickle_tags pickle)) with
                         | Some X => X
                         | None => pickle_name pickle
                         end.
Proof.
  intros Hcase Hpickle Hext Hstarted Hfinished Hmapped Hmsg.
  destruct (getTestResult_returns _ _ _ _ _ _ _ _
              Hcase Hpickle Hext Hstarted Hfinished Hmapped Hmsg)
    as (r & Hr & _ & Hname & _).
  exists r. split; [done|]. rewrite Hname.
  by destruct (tags_name (parseTags (pickle_tags pickle))).
Qed.

(** C4: for a case whose pickle's steps resolve to the outcomes Passed,
    Failed, Skipped, Skipped, Passed, Skipped, in this order,
    [getTestResult] returns step results with the outcomes Passed, Failed,
    Passed, Skipped, in this order. *)
Theorem getTestResult_cascading_skips (w : World) (testId : string)
    (testCase : TestCase) (pickle : Pickle) (ext : string)
    (started : TestCaseStarted) (finished : TestCaseFinished)
    (mapped : list TestResultStep) :
  find (λ testCase, bool_decide (testCase_id testCase = testId)) (testCases (this w))
    = Some testCase →
  find (λ pickle, bool_decide (pickle_id pickle = testCase_pickleId testCase))
       (pickles (this w)) = Some pickle →
  tags_externalId (parseTags (pickle_tags pickle)) = Some ext →
  head (testCasesStarted (this w)) = Some started →
  find (λ testCase, bool_decide (testCaseFinished_testCaseStartedId testCase
                                 = testCaseStarted_id started))
       (testCasesFinished (this w)) = Some finished →
  fst (mapM (λ step, getStepResult step testCase) (pickle_steps pickle) w) = Return mapped →
  getProp (messages (this w)) (testCase_id testCase) ≠ Inherited →
  map step_outcome mapped
    = ["Passed"; "Failed"; "Skipped"; "Skipped"; "Passed"; "Skipped"] →
  ∃ r, getTestResult testId w = (Return r, w)
       ∧ map step_outcome (stepResults r) = ["Passed"; "Failed"; "Passed"; "Skipped"].
Proof.
  intros Hcase Hpickle Hext Hstarted Hfinished Hmapped Hmsg Houtcomes.
  destruct (getTestResult_returns _ _ _ _ _ _ _ _
              Hcase Hpickle Hext Hstarted Hfinished Hmapped Hmsg)
    as (r & Hr & _ & _ & Hsteps & _).
  exists r. split; [done|]. rewrite Hsteps.
  by apply cascadingSkipFilter_six.
Qed.

(** C10: [isResolvedTestCase], [getTestResult], [getStepResult],
    [getStepMessage] and [getAttachments] leave the store (every collection
    of it, and every link array) as it was, whether they return or throw. *)
Theorem queries_leave_store_unchanged (w : World) (testCase : TestCase)
    (testId : string) (pickleStep : PickleStep) (testCaseId : string) :
  snd (isResolvedTestCase testCase w) = w
  ∧ snd (getTestResult testId w) = w
  ∧ snd (getStepResult pickleStep testCase w) = w
  ∧ snd (getStepMessage pickleStep testCase w) = w
  ∧ snd (getAttachments testCaseId w) = w.
Proof.
  split_and!.
  - apply readonly_isResolvedTestCase.
  - apply readonly_getTestResult.
  - apply readonly_getStepResult.
  - apply readonly_getStepMessage.
  - apply readonly_getAttachments.
Qed.

End Queries.

(** ** The accumulators *)

Section Accumulators.
Context `{Collab : Collaborators}.

Lemma grows_refl {A} (o : option (list A)) : grows o o.
Proof. destruct o as [l|]; [|done]. by exists l. Qed.

Lemma grows_trans {A} (o1 o2 o3 : option (list A)) :
  grows o1 o2 → grows o2 o3 → grows o1 o3.
Proof.
  destruct o1 as [l1|]; [|done]. intros (l2 & -> & H12) (l3 & -> & H23).
  exists l3. split; [done|]. by etrans.
Qed.

Lemma extends_refl w : extends w w.
Proof. split; intros; done || apply grows_refl. Qed.

Lemma extends_trans w1 w2 w3 : extends w1 w2 → extends w2 w3 → extends w1 w3.
Proof.
  intros [Hm1 Hl1 Ha1 Ht1] [Hm2 Hl2 Ha2 Ht2]. split.
  - intros id. by eapply grows_trans.
  - intros id r Hr. by apply Hl2, Hl1.
  - intros r. etrans; [apply Ha1 | apply Ha2].
  - intros id. by eapply grows_trans.
Qed.

(** A call that changes none of the three maps nor any array. *)
Lemma extends_same_accumulators w w' :
  messages (this w') = messages (this w) →
  resultLinks (this w') = resultLinks (this w) →
  attachments (this w') = attachments (this w) →
  arrays w' = arrays w →
  extends w w'.
Proof.
  intros Hm Hl Ht Ha. split; intros; rewrite ?Hm, ?Hl, ?Ht, ?Ha; done || apply grows_refl.
Qed.

Lemma getProp_Own {A} (o : gmap string A) k a : getProp o k = Own a → o !! k = Some a.
Proof. unfold getProp. destruct (o !! k); [congruence|]. by case_bool_decide. Qed.

Lemma getProp_Undefined {A} (o : gmap string A) k : getProp o k = Undefined → o !! k = None.
Proof. unfold getProp. by destruct (o !! k). Qed.

(** Writing [k] in a map extends every entry when [k] was absent or its
    value was a prefix of the new one. *)
Lemma grows_insert {A} (o : gmap string (list A)) k (l : list A) id :
  grows (o !! k) (Some l) → grows (o !! id) (<[k := l]> o !! id).
Proof.
  intros Hk. destruct (decide (k = id)) as [->|Hne].
  - by rewrite lookup_insert_eq.
  - rewrite lookup_insert_ne by done. apply grows_refl.
Qed.

Lemma addMessage_extends testCaseId message w :
  extends w (snd (addMessage testCaseId message w)).
Proof.
  unfold addMessage, bind, get.
  destruct (getProp (messages (this w)) testCaseId) as [ms| |] eqn:Hprop; simpl.
  - apply getProp_Own in Hprop. split; simpl; intros; try done || apply grows_refl.
    apply grows_insert. rewrite Hprop. eexists. split; [done|]. by apply prefix_app_r.
  - apply extends_refl.
  - apply getProp_Undefined in Hprop. split; simpl; intros; try done || apply grows_refl.
    apply grows_insert. by rewrite Hprop.
Qed.

Lemma addLinks_extends testCaseId links w :
  extends w (snd (addLinks testCaseId links w)).
Proof.
  unfold addLinks, bind, get.
  destruct (getProp (resultLinks (this w)) testCaseId) as [r| |] eqn:Hprop; simpl.
  - split; simpl; intros; try done || apply grows_refl.
    destruct (decide (r = r0)) as [<-|Hne].
    + rewrite fn_lookup_insert. by apply prefix_app_r.
    + by rewrite fn_lookup_insert_ne.
  - apply extends_refl.
  - apply getProp_Undefined in Hprop. split; simpl; intros; try done || apply grows_refl.
    rewrite lookup_insert_ne; [done|]. congruence.
Qed.

Lemma addAttachment_extends testCaseId attachmentId w :
  extends w (snd (addAttachment testCaseId attachmentId w)).
Proof.
  unfold addAttachment, bind, get.
  destruct (getProp (attachments (this w)) testCaseId) as [stored| |] eqn:Hprop; simpl.
  - apply extends_refl.
  - apply extends_refl.
  - apply getProp_Undefined in Hprop. split; simpl; intros; try done || apply grows_refl.
    apply grows_insert. by rewrite Hprop.
Qed.

Lemma call_extends c w : extends w (call c w).
Proof.
  destruct c; simpl;
    try (by apply extends_same_accumulators);
    try (by (rewrite readonly_isResolvedTestCase || rewrite readonly_getTestResult
             || rewrite readonly_getStepResult || rewrite readonly_getStepMessage
             || rewrite readonly_getAttachments); apply extends_refl).
  - apply addMessage_extends.
  - apply addLinks_extends.
  - apply addAttachment_extends.
Qed.

Lemma calls_extends cs w : extends w (calls cs w).
Proof.
  revert w. induction cs as [|c cs IH]; intros w.
  - apply extends_refl.
  - eapply extends_trans; [apply (call_extends c)|]. apply IH.
Qed.

(** C8: over every sequence of calls and for every case identifier, the
    entries of [messages], [resultLinks] and [attachments] only grow: an entry
    present before is present afterwards, and the sequence it held before is
    a prefix of the sequence it holds afterwards. *)
Theorem accumulators_only_grow (cs : list Call) (w : World) (testCaseId : string) :
  grows (messages (this w) !! testCaseId) (messages (this (calls cs w)) !! testCaseId)
  ∧ grows (linksOf w testCaseId) (linksOf (calls cs w) testCaseId)
  ∧ grows (attachments (this w) !! testCaseId)
          (attachments (this (calls cs w)) !! testCaseId).
Proof.
  destruct (calls_extends cs w) as [Hm Hl Ha Ht]. split_and!.
  - apply Hm.
  - unfold linksOf.
    destruct (resultLinks (this w) !! testCaseId) as [r|] eqn:Hr; [|done].
    rewrite (Hl _ _ Hr). simpl. eexists. split; [done|]. apply Ha.
  - apply Ht.
Qed.

End Accumulators.

(** ** The run of two scenarios *)

(** On an existing entry [addAttachment] returns and changes nothing. *)
Lemma addAttachment_existing `{Collab : Collaborators} testCaseId attachmentId stored w :
  attachments (this w) !! testCaseId = Some stored →
  addAttachment testCaseId attachmentId w = (Return tt, w).
Proof. intros Hs. unfold addAttachment, bind, get, getProp. by rewrite Hs. Qed.

(** Two cases sharing one link array: a later [addLinks] for the one shows
    under the other as well, at the end of what was there. *)
Example addLinks_shared_array :
  let l1 := mkLink "https://tracker/1" None in
  let l2 := mkLink "https://tracker/2" None in
  let w := mkWorld emptyStorage (λ r, match r with 0%nat => [l1] | 1%nat => [l2] | _ => [] end) in
  let w' := calls [AddLinks "case-1" 0%nat; AddLinks "case-2" 0%nat; AddLinks "case-1" 1%nat] w in
  linksOf w' "case-1" = Some [l1; l2] ∧ linksOf w' "case-2" = Some [l1; l2].
Proof. by vm_compute. Qed.

(** C1 (the code departs from it): both scenarios are ingested, the second
    with its own started record (second 20) and finished record (second 27),
    linked by the identifier "started-2". [getTestResult] on the second case
    pairs it with the first started record stored, that of the first case:
    the duration returned is 15 - 10, not 27 - 20. *)
Theorem getTestResult_duration_of_first_started :
  let w := Demo.loginThenCheckout in
  mkTestCaseStarted "started-2" "case-2" (Demo.at_ 20) ∈ testCasesStarted (this w)
  ∧ mkTestCaseFinished "started-2" (Demo.at_ 27) ∈ testCasesFinished (this w)
  ∧ ∃ r, fst (getTestResult "case-2" w) = Return r
         ∧ startedOn r = mapDate 10
         ∧ completedOn r = mapDate 15
         ∧ duration r = 15 - 10
         ∧ duration r ≠ 27 - 20.
Proof.
  split_and!.
  - vm_compute. apply list_elem_of_further, list_elem_of_here.
  - vm_compute. apply list_elem_of_further, list_elem_of_here.
  - eexists. split; [by vm_compute|]. by vm_compute.
Qed.

(** C2 (the code departs from it): after two calls of [addAttachment] for
    one case on an empty store, [getAttachments] returns one attachment, the
    first; the second is lost. *)
Theorem addAttachment_twice_keeps_first :
  fst (getAttachments "case-1"
         (calls [AddAttachment "case-1" "a1"; AddAttachment "case-1" "a2"] Demo.emptyWorld))
  = Return (Own [mkAttachment "a1"]).
Proof. by vm_compute. Qed.

(** The store holding only the draft scenario knows no case "case-4". *)
Lemma getTestResult_unknown_case_witness :
  getTestResult "case-4" Demo.withDraft
  = (Throw (Error "TestCase not found"), Demo.withDraft).
Proof.
  apply (getTestResult_unknown_case Demo.withDraft "case-4").
  apply (bool_decide_unpack _). vm_compute. exact I.
Defined.

(** The draft scenario's only tag is "@wip". *)
Lemma getTestResult_missing_externalId_witness :
  getTestResult "case-3" Demo.withDraft
  = (Throw (Error "External ID is not provided"), Demo.withDraft).
Proof.
  apply (getTestResult_missing_externalId Demo.withDraft "case-3"
           Demo.draftCase Demo.draftPickle); reflexivity.
Defined.

(** The login scenario has a display name in its tags, the checkout
    scenario has none. *)
Lemma getTestResult_displayName_witness :
  (∃ r, getTestResult "case-1" Demo.onlyLogin = (Return r, Demo.onlyLogin)
        ∧ displayName r = "Login")
  ∧ (∃ r, getTestResult "case-2" Demo.onlyCheckout = (Return r, Demo.onlyCheckout)
          ∧ displayName r = "User checks out").
Proof.
  split.
  - change "Login"
      with (match tags_name (parseTags (pickle_tags Demo.loginPickle)) with
            | Some X => X
            | None => pickle_name Demo.loginPickle
            end).
    eapply (getTestResult_displayName Demo.onlyLogin "case-1"
              Demo.loginCase Demo.loginPickle);
      reflexivity || discriminate.
  - change "User checks out"
      with (match tags_name (parseTags (pickle_tags Demo.checkoutPickle)) with
            | Some X => X
            | None => pickle_name Demo.checkoutPickle
            end).
    eapply (getTestResult_displayName Demo.onlyCheckout "case-2"
              Demo.checkoutCase Demo.checkoutPickle);
      reflexivity || discriminate.
Defined.

(** The checkout scenario run alone: its six steps have the outcomes of the
    example. *)
Lemma getTestResult_cascading_skips_witness :
  ∃ r, getTestResult "case-2" Demo.onlyCheckout = (Return r, Demo.onlyCheckout)
       ∧ map step_outcome (stepResults r) = ["Passed"; "Failed"; "Passed"; "Skipped"].
Proof.
  eapply (getTestResult_cascading_skips Demo.onlyCheckout "case-2"
            Demo.checkoutCase Demo.checkoutPickle);
    reflexivity || discriminate.
Defined.

(** * Further properties of the storage *)

(** ** Results and later events *)

Section Ingestion.
Context `{Collab : Collaborators}.

Lemma find_prefix {A} (f : A → bool) (l l' : list A) x :
  l `prefix_of` l' → find f l = Some x → find f l' = Some x.
Proof.
  intros [k ->]. induction l as [|a l IH]; simpl; [done|].
  destruct (f a); [done|apply IH].
Qed.

Lemma head_prefix {A} (l l' : list A) x :
  l `prefix_of` l' → head l = Some x → head l' = Some x.
Proof. intros [k ->]. by destruct l. Qed.

Lemma eventsGrow_refl w : eventsGrow w w.
Proof. by split. Qed.

Lemma eventsGrow_trans w1 w2 w3 : eventsGrow w1 w2 → eventsGrow w2 w3 → eventsGrow w1 w3.
Proof. intros [] []. split; by etrans. Qed.

Lemma getStepResult_grows w w' pickleStep testCase x :
  eventsGrow w w' →
  fst (getStepResult pickleStep testCase w) = Return x →
  fst (getStepResult pickleStep testCase w') = Return x.
Proof.
  intros Hg. unfold getStepResult, bind, get, found, ret, throw.
  destruct (find _ (testCase_testSteps testCase)) as [testStep|]; [|done].
  destruct (find _ (testStepsStarted (this w))) as [started|] eqn:Hs; [|done].
  rewrite (find_prefix _ _ _ _ (grow_testStepsStarted _ _ Hg) Hs).
  destruct (find _ (testStepsFinished (this w))) as [finished|] eqn:Hf; [|done].
  by rewrite (find_prefix _ _ _ _ (grow_testStepsFinished _ _ Hg) Hf).
Qed.

Lemma getStepMessage_grows w w' pickleStep testCase x :
  eventsGrow w w' →
  fst (getStepMessage pickleStep testCase w) = Return x →
  fst (getStepMessage pickleStep testCase w') = Return x.
Proof.
  intros Hg. unfold getStepMessage, bind, get, found, ret, throw.
  destruct (find _ (testCase_testSteps testCase)) as [testStep|]; [|done].
  destruct (find _ (testStepsStarted (this w))) as [started|] eqn:Hs; [|done].
  rewrite (find_prefix _ _ _ _ (grow_testStepsStarted _ _ Hg) Hs).
  destruct (find _ (testStepsFinished (this w))) as [finished|] eqn:Hf; [|done].
  by rewrite (find_prefix _ _ _ _ (grow_testStepsFinished _ _ Hg) Hf).
Qed.

Lemma mapM_getStepResult_grows w w' steps testCase mapped :
  eventsGrow w w' →
  fst (mapM (λ step, getStepResult step testCase) steps w) = Return mapped →
  fst (mapM (λ step, getStepResult step testCase) steps w') = Return mapped.
Proof.
  intros Hg. revert mapped. induction steps as [|step rest IH]; intros mapped; [done|].
  simpl. unfold bind.
  rewrite (readonly_run _ w (readonly_getStepResult step testCase)),
          (readonly_run _ w' (readonly_getStepResult step testCase)).
  destruct (fst (getStepResult step testCase w)) as [b|] eqn:Hb; [|done].
  rewrite (getStepResult_grows _ _ _ _ _ Hg Hb).
  rewrite (readonly_run _ w (readonly_mapM _ rest (λ s, readonly_getStepResult s testCase))),
          (readonly_run _ w' (readonly_mapM _ rest (λ s, readonly_getStepResult s testCase))).
  destruct (fst (mapM _ rest w)) as [bs|] eqn:Hbs; [|done].
  by rewrite (IH _ eq_refl).
Qed.

Lemma collectStepMessages_grows w w' steps testCase ms :
  eventsGrow w w' →
  fst (collectStepMessages steps testCase w) = Return ms →
  fst (collectStepMessages steps testCase w') = Return ms.
Proof.
  intros Hg. revert ms. induction steps as [|step rest IH]; intros ms; [done|].
  simpl. unfold bind.
  rewrite (readonly_run _ w (readonly_getStepMessage step testCase)),
          (readonly_run _ w' (readonly_getStepMessage step testCase)).
  destruct (fst (getStepMessage step testCase w)) as [m|] eqn:Hm; [|done].
  rewrite (getStepMessage_grows _ _ _ _ _ Hg Hm).
  rewrite (readonly_run _ w (readonly_collectStepMessages rest testCase)),
          (readonly_run _ w' (readonly_collectStepMessages rest testCase)).
  destruct (fst (collectStepMessages rest testCase w)) as [later|] eqn:Hl; [|done].
  by rewrite (IH _ eq_refl).
Qed.

(** The result for [testId] in a state with more events: the lookups of
    [getTestResult] find what they found, so the result differs at most in
    the three fields read from the accumulators. *)
Lemma getTestResult_transfer w w' testId r :
  eventsGrow w w' →
  fst (getTestResult testId w) = Return r →
  getProp (messages (this w')) testId ≠ Inherited →
  fst (getTestResult testId w')
  = Return (withAccumulated (resultLinksOf w' testId) (messageOf w' testId)
              (getProp (attachments (this w')) testId) r).
Proof.
  intros Hg Hr Hmsg. revert Hr. unfold getTestResult, bind, get.
  destruct (find _ (testCases (this w))) as [testCase|] eqn:Hc; [|done].
  rewrite (find_prefix _ _ _ _ (grow_testCases _ _ Hg) Hc). simpl.
  assert (Hid : testCase_id testCase = testId).
  { apply find_some in Hc as [_ Hc]. by apply bool_decide_eq_true_1 in Hc. }
  rewrite Hid.
  destruct (find _ (pickles (this w))) as [pickle|] eqn:Hp; [|done].
  rewrite (find_prefix _ _ _ _ (grow_pickles _ _ Hg) Hp). simpl.
  destruct (tags_externalId (parseTags (pickle_tags pickle))) as [ext|]; [|done]. simpl.
  rewrite !find_testCaseStarted_head.
  destruct (head (testCasesStarted (this w))) as [started|] eqn:Hs; [|done].
  rewrite (head_prefix _ _ _ (grow_testCasesStarted _ _ Hg) Hs). simpl.
  destruct (find _ (testCasesFinished (this w))) as [finished|] eqn:Hf; [|done].
  rewrite (find_prefix _ _ _ _ (grow_testCasesFinished _ _ Hg) Hf). simpl.
  rewrite (readonly_run _ w (readonly_mapM _ _ (λ s, readonly_getStepResult s testCase))),
          (readonly_run _ w' (readonly_mapM _ _ (λ s, readonly_getStepResult s testCase))).
  destruct (fst (mapM _ (pickle_steps pickle) w)) as [mapped|] eqn:Hm; [|done].
  rewrite (mapM_getStepResult_grows _ _ _ _ _ Hg Hm).
  rewrite (readonly_run _ w (readonly_collectStepMessages _ testCase)),
          (readonly_run _ w' (readonly_collectStepMessages _ testCase)).
  destruct (fst (collectStepMessages _ testCase w)) as [ms|] eqn:Hms; [|done].
  rewrite (collectStepMessages_grows _ _ _ _ _ Hg Hms).
  unfold getAttachments, bind, get, ret, withAccumulated, resultLinksOf, messageOf.
  destruct (getProp (messages (this w)) testId); [|done|];
    destruct (getProp (attachments (this w)) testId); simpl; intros [= <-];
    destruct (getProp (messages (this w')) testId); try done;
    destruct (getProp (attachments (this w')) testId); done.
Qed.

(** A result holds what the accumulators of its own state give. *)
Lemma getTestResult_accumulated w testId r :
  fst (getTestResult testId w) = Return r →
  getProp (messages (this w)) testId ≠ Inherited
  ∧ r = withAccumulated (resultLinksOf w testId) (messageOf w testId)
          (getProp (attachments (this w)) testId) r.
Proof.
  intros Hr.
  assert (Hmsg : getProp (messages (this w)) testId ≠ Inherited).
  { revert Hr. unfold getTestResult, bind, get.
    destruct (find _ (testCases (this w))) as [testCase|] eqn:Hc; [|done]. simpl.
    apply find_some in Hc as [_ Hc]. apply bool_decide_eq_true_1 in Hc. rewrite Hc.
    destruct (find _ (pickles (this w))) as [pickle|]; [|done]. simpl.
    destruct (tags_externalId _); [|done]. simpl.
    destruct (find _ (testCasesStarted (this w))); [|done]. simpl.
    destruct (find _ (testCasesFinished (this w))); [|done]. simpl.
    destruct (mapM _ _ w) as [[?|?] ?]; [|done].
    destruct (collectStepMessages _ _ _) as [[?|?] ?]; [|done].
    by destruct (getProp (messages (this _)) testId) eqn:Hprop. }
  split; [done|].
  pose proof (getTestResult_transfer w w testId r (eventsGrow_refl w) Hr Hmsg) as Hw.
  rewrite Hr in Hw. by injection Hw.
Qed.

End Ingestion.

(** ** Calls and the event arrays *)

Section CallsAndEvents.
Context `{Collab : Collaborators}.

Lemma call_eventsGrow c w : eventsGrow w (call c w).
Proof.
  destruct c; simpl;
    try (split; simpl; done || by apply prefix_app_r);
    try (by (rewrite readonly_isResolvedTestCase || rewrite readonly_getTestResult
             || rewrite readonly_getStepResult || rewrite readonly_getStepMessage
             || rewrite readonly_getAttachments); apply eventsGrow_refl).
  - unfold addMessage, bind, get. by destruct (getProp _ _).
  - unfold addLinks, bind, get. by destruct (getProp _ _).
  - unfold addAttachment, bind, get. by destruct (getProp _ _).
Qed.

Lemma calls_eventsGrow cs w : eventsGrow w (calls cs w).
Proof.
  revert w. induction cs as [|c cs IH]; intros w; [apply eventsGrow_refl|].
  eapply eventsGrow_trans; [apply (call_eventsGrow c)|apply IH].
Qed.

(** A call that is not one of the three adders leaves the accumulators and
    the link arrays as they are. *)
Lemma call_accumulators c w :
  isAdder c = false →
  messages (this (call c w)) = messages (this w)
  ∧ resultLinks (this (call c w)) = resultLinks (this w)
  ∧ attachments (this (call c w)) = attachments (this w)
  ∧ arrays (call c w) = arrays w.
Proof.
  intros Hc. destruct c; try discriminate Hc; simpl; try done;
    by (rewrite readonly_isResolvedTestCase || rewrite readonly_getTestResult
        || rewrite readonly_getStepResult || rewrite readonly_getStepMessage
        || rewrite readonly_getAttachments).
Qed.

Lemma calls_accumulators cs w :
  Forall (λ c, isAdder c = false) cs →
  messages (this (calls cs w)) = messages (this w)
  ∧ resultLinks (this (calls cs w)) = resultLinks (this w)
  ∧ attachments (this (calls cs w)) = attachments (this w)
  ∧ arrays (calls cs w) = arrays w.
Proof.
  intros Hcs. revert w. induction Hcs as [|c cs Hc _ IH]; intros w; [done|].
  simpl. destruct (IH (call c w)) as (-> & -> & -> & ->).
  by apply call_accumulators.
Qed.

(** Once [getTestResult] returns a result for a case, it returns this very
    result after any further calls other than [addMessage], [addLinks] and
    [addAttachment]: events that arrive later, duplicates of the case's own
    records included, never change it. *)
Theorem getTestResult_stable (cs : list Call) (w : World) (testId : string)
    (r : TestResult) :
  Forall (λ c, isAdder c = false) cs →
  fst (getTestResult testId w) = Return r →
  fst (getTestResult testId (calls cs w)) = Return r.
Proof.
  intros Hcs Hr.
  destruct (getTestResult_accumulated w testId r Hr) as [Hmsg Hacc].
  destruct (calls_accumulators cs w Hcs) as (Hm & Hl & Ht & Ha).
  rewrite (getTestResult_transfer w (calls cs w) testId r (calls_eventsGrow cs w) Hr)
    by (by rewrite Hm).
  unfold resultLinksOf, messageOf. rewrite Hm, Hl, Ht, Ha.
  f_equal. symmetry. exact Hacc.
Qed.

(** Over every sequence of calls, each of the seven event arrays only gains
    elements at its end: what was stored stays, in its place. *)
Theorem events_only_grow (cs : list Call) (w : World) :
  gherkinDocuments (this w) `prefix_of` gherkinDocuments (this (calls cs w))
  ∧ pickles (this w) `prefix_of` pickles (this (calls cs w))
  ∧ testCases (this w) `prefix_of` testCases (this (calls cs w))
  ∧ testCasesStarted (this w) `prefix_of` testCasesStarted (this (calls cs w))
  ∧ testCasesFinished (this w) `prefix_of` testCasesFinished (this (calls cs w))
  ∧ testStepsStarted (this w) `prefix_of` testStepsStarted (this (calls cs w))
  ∧ testStepsFinished (this w) `prefix_of` testStepsFinished (this (calls cs w)).
Proof. by destruct (calls_eventsGrow cs w). Qed.

(** A case that [isResolvedTestCase] accepts stays accepted after any
    further calls. *)
Theorem isResolvedTestCase_stays_true (cs : list Call) (w : World) (testCase : TestCase) :
  fst (isResolvedTestCase testCase w) = Return true →
  fst (isResolvedTestCase testCase (calls cs w)) = Return true.
Proof.
  unfold isResolvedTestCase, bind, get, ret. simpl. intros [= Hw]. f_equal.
  apply isResolvedTestCase_loop_true in Hw as (pickle & Hin & Hid & Hext).
  apply isResolvedTestCase_loop_true. exists pickle. split; [|done].
  destruct (grow_pickles _ _ (calls_eventsGrow cs w)) as [k ->].
  apply elem_of_app. by left.
Qed.

(** Two save calls for different event arrays commute: the store does not
    depend on the order in which events of different kinds arrive. *)
Theorem saves_commute (c1 c2 : Call) (k1 k2 : Category) (w : World) :
  category c1 = Some k1 →
  category c2 = Some k2 →
  k1 ≠ k2 →
  call c2 (call c1 w) = call c1 (call c2 w).
Proof.
  intros H1 H2 Hne.
  destruct c1; try discriminate H1; destruct c2; try discriminate H2;
    simpl in H1, H2; simplify_eq; reflexivity.
Qed.

End CallsAndEvents.

(** ** The accumulators and the result *)

Section AccumulatedFields.
Context `{Collab : Collaborators}.

Lemma getProp_Inherited {A} (o : gmap string A) k :
  getProp o k = Inherited → o !! k = None ∧ k ∈ objectPrototypeKeys.
Proof.
  unfold getProp. destruct (o !! k); [done|]. case_bool_decide; [done|discriminate].
Qed.

Lemma getProp_Some {A} (o : gmap string A) k a : o !! k = Some a → getProp o k = Own a.
Proof. unfold getProp. by intros ->. Qed.

Lemma getTestResult_fields w testId r :
  fst (getTestResult testId w) = Return r →
  result_resultLinks r = resultLinksOf w testId
  ∧ message r = messageOf w testId
  ∧ result_attachments r = getProp (attachments (this w)) testId.
Proof.
  intros Hr. destruct (getTestResult_accumulated w testId r Hr) as [_ Hacc].
  split_and!.
  - by apply (f_equal result_resultLinks) in Hacc.
  - by apply (f_equal message) in Hacc.
  - by apply (f_equal result_attachments) in Hacc.
Qed.

(** After [addMessage] for a case that has a result, the result is the same
    but for its [message]: the messages stored so far and the new one, in
    this order, joined by two line feeds. *)
Theorem addMessage_in_result (w : World) (testId : string) (m : string)
    (r : TestResult) :
  fst (getTestResult testId w) = Return r →
  fst (getTestResult testId (snd (addMessage testId m w)))
  = Return (withAccumulated (result_resultLinks r)
              (Some (join doubleNewline (default [] (messages (this w) !! testId) ++ [m])))
              (result_attachments r) r).
Proof.
  intros Hr.
  destruct (getTestResult_accumulated w testId r Hr) as [Hmsg _].
  destruct (getTestResult_fields w testId r Hr) as (Hl & _ & Ht).
  pose proof (call_eventsGrow (AddMessage testId m) w) as Hg. simpl in Hg.
  pose proof (getTestResult_transfer w _ testId r Hg Hr) as Hw.
  rewrite Hl, Ht. revert Hw.
  unfold addMessage, bind, get, resultLinksOf, messageOf.
  destruct (getProp (messages (this w)) testId) as [ms| |] eqn:Hprop; [|done|]; simpl.
  - apply getProp_Own in Hprop.
    rewrite (getProp_Some _ _ _ (lookup_insert_eq _ _ _)), Hprop. simpl.
    intros Hw. by apply Hw.
  - apply getProp_Undefined in Hprop.
    rewrite (getProp_Some _ _ _ (lookup_insert_eq _ _ _)), Hprop. simpl.
    intros Hw. by apply Hw.
Qed.

(** After [addLinks] for a case that has a result, the result is the same
    but for its [resultLinks]: at the first call for the case the elements of
    the array passed, at a later call the elements stored followed by those
    of the array passed. *)
Theorem addLinks_in_result (w : World) (testId : string) (l : loc) (r : TestResult) :
  testId ∉ objectPrototypeKeys →
  fst (getTestResult testId w) = Return r →
  fst (getTestResult testId (snd (addLinks testId l w)))
  = Return (withAccumulated
              (Own (match resultLinks (this w) !! testId with
                    | Some a => arrays w a ++ arrays w l
                    | None => arrays w l
                    end))
              (message r) (result_attachments r) r).
Proof.
  intros Hkey Hr.
  destruct (getTestResult_accumulated w testId r Hr) as [Hmsg _].
  destruct (getTestResult_fields w testId r Hr) as (_ & Hm & Ht).
  pose proof (call_eventsGrow (AddLinks testId l) w) as Hg. simpl in Hg.
  pose proof (getTestResult_transfer w _ testId r Hg Hr) as Hw.
  rewrite Hm, Ht. revert Hw.
  unfold addLinks, bind, get, resultLinksOf, messageOf.
  destruct (getProp (resultLinks (this w)) testId) as [a| |] eqn:Hprop; simpl.
  - apply getProp_Own in Hprop. rewrite Hprop, (getProp_Some _ _ _ Hprop).
    rewrite fn_lookup_insert. intros Hw. by apply Hw.
  - by apply getProp_Inherited in Hprop as [_ ?].
  - apply getProp_Undefined in Hprop.
    rewrite (getProp_Some _ _ _ (lookup_insert_eq _ _ _)), Hprop.
    intros Hw. by apply Hw.
Qed.

(** [addLinks] for a case that has an array pushes into that array: every
    case bound to the same array shows the new elements too, and a case bound
    to another array keeps its links. Passing the stored array itself
    doubles it. *)
Theorem addLinks_reaches_every_sharer (w : World) (testCaseId : string) (l a : loc)
    (other : string) (b : loc) :
  resultLinks (this w) !! testCaseId = Some a →
  resultLinks (this w) !! other = Some b →
  linksOf (snd (addLinks testCaseId l w)) other
  = Some (if decide (b = a) then arrays w a ++ arrays w l else arrays w b).
Proof.
  intros Ha Hb. unfold addLinks, bind, get, linksOf.
  rewrite (getProp_Some _ _ _ Ha). simpl. rewrite Hb. simpl. f_equal.
  case_decide as Hab.
  - subst b. by rewrite fn_lookup_insert.
  - by rewrite fn_lookup_insert_ne.
Qed.

Lemma call_attachments_kept c w testCaseId stored :
  attachments (this w) !! testCaseId = Some stored →
  attachments (this (call c w)) !! testCaseId = Some stored.
Proof.
  intros Hs. destruct (isAdder c) eqn:Hc.
  - destruct c; try discriminate Hc; simpl.
    + unfold addMessage, bind, get. by destruct (getProp _ _).
    + unfold addLinks, bind, get. by destruct (getProp _ _).
    + unfold addAttachment, bind, get.
      destruct (getProp _ testCaseId0) eqn:Hprop; simpl; try done.
      apply getProp_Undefined in Hprop.
      rewrite lookup_insert_ne; [done|]. congruence.
  - by destruct (call_accumulators c w Hc) as (_ & _ & -> & _).
Qed.

(** The attachments of a case never change once there are any: whatever is
    called afterwards, [getAttachments] returns the same array. *)
Theorem getAttachments_never_changes (cs : list Call) (w : World)
    (testCaseId : string) (stored : list Attachment) :
  fst (getAttachments testCaseId w) = Return (Own stored) →
  fst (getAttachments testCaseId (calls cs w)) = Return (Own stored).
Proof.
  assert (Hget : ∀ w', fst (getAttachments testCaseId w') = Return (Own stored)
                       ↔ attachments (this w') !! testCaseId = Some stored).
  { intros w'. unfold getAttachments, bind, get, ret, getProp. simpl.
    destruct (attachments (this w') !! testCaseId); simpl; [naive_solver|].
    case_bool_decide; naive_solver. }
  rewrite !Hget. revert w. induction cs as [|c cs IH]; intros w Hs; [done|].
  simpl. by apply IH, call_attachments_kept.
Qed.

Lemma call_attachments_new c w testCaseId stored :
  attachments (this w) !! testCaseId = None →
  attachments (this (call c w)) !! testCaseId = Some stored →
  (testCaseId ∉ objectPrototypeKeys)
  ∧ ∃ attachmentId, c = AddAttachment testCaseId attachmentId
                    ∧ stored = [mkAttachment attachmentId].
Proof.
  intros Hnone. destruct (isAdder c) eqn:Hc.
  - destruct c; try discriminate Hc; simpl.
    + unfold addMessage, bind, get. destruct (getProp _ _); simpl; congruence.
    + unfold addLinks, bind, get. destruct (getProp _ _); simpl; congruence.
    + unfold addAttachment, bind, get.
      destruct (getProp _ testCaseId0) eqn:Hprop; simpl; try congruence.
      destruct (decide (testCaseId0 = testCaseId)) as [->|Hne].
      * rewrite lookup_insert_eq. intros [= <-]. split; [|by eexists].
        revert Hprop. unfold getProp. rewrite Hnone. by case_bool_decide.
      * rewrite lookup_insert_ne by done. congruence.
  - destruct (call_accumulators c w Hc) as (_ & _ & -> & _). congruence.
Qed.

Lemma call_attachments_none c w testCaseId :
  testCaseId ∉ objectPrototypeKeys →
  attachments (this (call c w)) !! testCaseId = None →
  ∀ attachmentId, c ≠ AddAttachment testCaseId attachmentId.
Proof.
  intros Hkey Hnone attachmentId ->. revert Hnone. simpl.
  unfold addAttachment, bind, get, getProp.
  destruct (attachments (this w) !! testCaseId) eqn:Hs; simpl; [by rewrite Hs|].
  rewrite bool_decide_eq_false_2 by done. simpl. by rewrite lookup_insert_eq.
Qed.

Lemma calls_attachments_kept cs w testCaseId stored :
  attachments (this w) !! testCaseId = Some stored →
  attachments (this (calls cs w)) !! testCaseId = Some stored.
Proof.
  revert w. induction cs as [|c cs IH]; intros w Hs; [done|].
  simpl. by apply IH, call_attachments_kept.
Qed.

Lemma calls_attachments_origin cs w testCaseId stored :
  attachments (this (calls cs w)) !! testCaseId = Some stored →
  attachments (this w) !! testCaseId = Some stored
  ∨ (attachments (this w) !! testCaseId = None
     ∧ (testCaseId ∉ objectPrototypeKeys)
     ∧ ∃ before attachmentId after,
         cs = before ++ AddAttachment testCaseId attachmentId :: after
         ∧ (∀ a, AddAttachment testCaseId a ∉ before)
         ∧ stored = [mkAttachment attachmentId]).
Proof.
  revert w. induction cs as [|c cs IH]; intros w Hs; [by left|].
  simpl in Hs.
  destruct (attachments (this w) !! testCaseId) as [x|] eqn:Hw.
  { left. apply (calls_attachments_kept (c :: cs)) in Hw. simpl in Hw. congruence. }
  right. split; [done|].
  destruct (attachments (this (call c w)) !! testCaseId) as [y|] eqn:Hc.
  - destruct (call_attachments_new c w _ _ Hw Hc) as (Hkey & a & -> & ->).
    apply (calls_attachments_kept cs) in Hc.
    split; [done|]. exists [], a, cs. split_and!; [done| |congruence].
    intros a' Hin. by apply elem_of_nil in Hin.
  - destruct (IH _ Hs) as [Hsome|(_ & Hkey & before & a & after & -> & Hfirst & ->)];
      [congruence|].
    split; [done|]. exists (c :: before), a, after. split_and!; [done| |done].
    intros a' Hin. apply elem_of_cons in Hin as [Heq|Hin]; [|by eapply Hfirst].
    by eapply call_attachments_none.
Qed.

(** On a store that starts empty, whatever is called, the attachments of a
    case are never more than one: the one of the first [addAttachment] call
    for the case. *)
Theorem getAttachments_first_only (cs : list Call) (heap : loc → list Link)
    (testCaseId : string) (stored : list Attachment) :
  fst (getAttachments testCaseId (calls cs (mkWorld emptyStorage heap)))
    = Return (Own stored) →
  ∃ before attachmentId after,
    cs = before ++ AddAttachment testCaseId attachmentId :: after
    ∧ (∀ a, AddAttachment testCaseId a ∉ before)
    ∧ stored = [mkAttachment attachmentId].
Proof.
  intros Hget.
  assert (Hs : attachments (this (calls cs (mkWorld emptyStorage heap))) !! testCaseId
               = Some stored).
  { revert Hget. unfold getAttachments, bind, get, ret, getProp. simpl.
    destruct (attachments _ !! testCaseId); simpl; [congruence|].
    by case_bool_decide. }
  destruct (calls_attachments_origin _ _ _ _ Hs) as [Hempty|(_ & _ & Hfirst)]; [|done].
  simpl in Hempty. by rewrite lookup_empty in Hempty.
Qed.

End AccumulatedFields.

(** ** Case identifiers that name a member of [Object.prototype] *)

Section PrototypeKeys.
Context `{Collab : Collaborators}.

Lemma getProp_Undefined_key {A} (o : gmap string A) k :
  getProp o k = Undefined → k ∉ objectPrototypeKeys.
Proof. unfold getProp. destruct (o !! k); [done|]. by case_bool_decide. Qed.

Lemma call_noOwnPrototypeKeys c w : noOwnPrototypeKeys w → noOwnPrototypeKeys (call c w).
Proof.
  intros Hw. destruct (isAdder c) eqn:Hc.
  - destruct c; try discriminate Hc; simpl; intros k Hk;
      destruct (Hw k Hk) as (Hm & Hl & Ht).
    + unfold addMessage, bind, get.
      destruct (getProp _ testCaseId) eqn:Hprop; simpl; try done.
      * apply getProp_Own in Hprop. rewrite lookup_insert_ne; [done|]. congruence.
      * apply getProp_Undefined_key in Hprop.
        rewrite lookup_insert_ne; [done|]. congruence.
    + unfold addLinks, bind, get.
      destruct (getProp _ testCaseId) eqn:Hprop; simpl; try done.
      apply getProp_Undefined_key in Hprop.
      rewrite lookup_insert_ne; [done|]. congruence.
    + unfold addAttachment, bind, get.
      destruct (getProp _ testCaseId) eqn:Hprop; simpl; try done.
      apply getProp_Undefined_key in Hprop.
      rewrite lookup_insert_ne; [done|]. congruence.
  - intros k Hk. destruct (call_accumulators c w Hc) as (-> & -> & -> & _). by apply Hw.
Qed.

Lemma calls_noOwnPrototypeKeys cs w : noOwnPrototypeKeys w → noOwnPrototypeKeys (calls cs w).
Proof.
  revert w. induction cs as [|c cs IH]; intros w Hw; [done|].
  simpl. by apply IH, call_noOwnPrototypeKeys.
Qed.

(** On a store that starts empty, in every state reached, a case identifier
    that names a member of [Object.prototype] is refused: the three adders
    throw a TypeError and store nothing, [getAttachments] hands out the
    inherited member instead of [undefined], and [getTestResult] returns no
    result for it. *)
Theorem prototype_keys_rejected (cs : list Call) (heap : loc → list Link)
    (k : string) (m : string) (l : loc) (a : string) :
  k ∈ objectPrototypeKeys →
  let w := calls cs (mkWorld emptyStorage heap) in
  addMessage k m w = (Throw TypeError, w)
  ∧ addLinks k l w = (Throw TypeError, w)
  ∧ addAttachment k a w = (Throw TypeError, w)
  ∧ getAttachments k w = (Return Inherited, w)
  ∧ ∀ r, fst (getTestResult k w) ≠ Return r.
Proof.
  intros Hk w.
  assert (Hw : noOwnPrototypeKeys w).
  { apply calls_noOwnPrototypeKeys. intros k' _. simpl. by rewrite !lookup_empty. }
  destruct (Hw k Hk) as (Hm & Hl & Ht).
  assert (Hprop : ∀ A (o : gmap string A), o !! k = None → getProp o k = Inherited).
  { intros A o Ho. unfold getProp. rewrite Ho. by rewrite bool_decide_eq_true_2. }
  split_and!.
  - unfold addMessage, bind, get. by rewrite (Hprop _ _ Hm).
  - unfold addLinks, bind, get. by rewrite (Hprop _ _ Hl).
  - unfold addAttachment, bind, get. by rewrite (Hprop _ _ Ht).
  - unfold getAttachments, bind, get. by rewrite (Hprop _ _ Ht).
  - intros r Hr. destruct (getTestResult_accumulated w k r Hr) as [Hmsg _].
    by apply Hmsg, Hprop.
Qed.

End PrototypeKeys.

(** ** Errors *)

Section Errors.
Context `{Collab : Collaborators}.

(** [getStepMessage] throws exactly the errors [getStepResult] throws, on
    the same arguments. *)
Theorem getStepMessage_throws_as_getStepResult (pickleStep : PickleStep)
    (testCase : TestCase) (w : World) (e : Exn) :
  fst (getStepResult pickleStep testCase w) = Throw e
  ↔ fst (getStepMessage pickleStep testCase w) = Throw e.
Proof.
  unfold getStepResult, getStepMessage, bind, get, found, ret, throw.
  destruct (find _ (testCase_testSteps testCase)); simpl;
    [|split; by intros [= <-]].
  destruct (find _ (testStepsStarted (this w))); simpl;
    [|split; by intros [= <-]].
  destruct (find _ (testStepsFinished (this w))); simpl;
    [split; discriminate|split; by intros [= <-]].
Qed.

Lemma getStepResult_errors pickleStep testCase w e :
  fst (getStepResult pickleStep testCase w) = Throw e → e ∈ stepErrors.
Proof.
  unfold getStepResult, bind, get, found, ret, throw, stepErrors.
  destruct (find _ (testCase_testSteps testCase)); simpl;
    [|intros [= <-]; set_solver].
  destruct (find _ (testStepsStarted (this w))); simpl; [|intros [= <-]; set_solver].
  destruct (find _ (testStepsFinished (this w))); simpl; [done|intros [= <-]; set_solver].
Qed.

Lemma mapM_getStepResult_errors steps testCase w e :
  fst (mapM (λ step, getStepResult step testCase) steps w) = Throw e → e ∈ stepErrors.
Proof.
  induction steps as [|step rest IH]; [discriminate|]. simpl. unfold bind.
  rewrite (readonly_run _ w (readonly_getStepResult step testCase)).
  destruct (fst (getStepResult step testCase w)) as [b|e'] eqn:Hb;
    [|intros [= <-]; by eapply getStepResult_errors].
  rewrite (readonly_run _ w (readonly_mapM _ rest (λ s, readonly_getStepResult s testCase))).
  destruct (fst (mapM _ rest w)) as [bs|e'] eqn:Hbs; [done|].
  intros [= <-]. by apply IH.
Qed.

End Errors.

Section ResultErrors.
Context `{Collab : Collaborators}.

Lemma mapM_getStepResult_first_throw before step after testCase w e :
  Forall (λ s, ∃ x, fst (getStepResult s testCase w) = Return x) before →
  fst (getStepResult step testCase w) = Throw e →
  fst (mapM (λ step, getStepResult step testCase) (before ++ step :: after) w) = Throw e.
Proof.
  intros Hbefore Hstep. induction Hbefore as [|s before [x Hx] _ IH]; simpl; unfold bind.
  - rewrite (readonly_run _ w (readonly_getStepResult step testCase)). by rewrite Hstep.
  - rewrite (readonly_run _ w (readonly_getStepResult s testCase)), Hx.
    rewrite (readonly_run _ w
               (readonly_mapM _ _ (λ s, readonly_getStepResult s testCase))).
    by rewrite IH.
Qed.

(** Every exception [getTestResult] throws is one of nine: the five errors of
    its own lookups, the three of the step lookups, or a TypeError. *)
Theorem getTestResult_errors (w : World) (testId : string) (e : Exn) :
  fst (getTestResult testId w) = Throw e → e ∈ resultErrors.
Proof.
  unfold getTestResult, bind, get, resultErrors.
  destruct (find _ (testCases (this w))) as [testCase|]; simpl;
    [|intros [= <-]; set_solver].
  destruct (find _ (pickles (this w))) as [pickle|]; simpl; [|intros [= <-]; set_solver].
  destruct (tags_externalId _); simpl; [|intros [= <-]; set_solver].
  destruct (find _ (testCasesStarted (this w))); simpl; [|intros [= <-]; set_solver].
  destruct (find _ (testCasesFinished (this w))); simpl; [|intros [= <-]; set_solver].
  rewrite (readonly_run _ w (readonly_mapM _ _ (λ s, readonly_getStepResult s testCase))).
  destruct (fst (mapM _ (pickle_steps pickle) w)) as [mapped|e'] eqn:Hm.
  - destruct (collectStepMessages_returns _ _ _ _ Hm) as [ms ->].
    destruct (getProp (messages (this w)) _); simpl.
    + rewrite (readonly_run _ w (readonly_getAttachments _)).
      unfold getAttachments, bind, get. by destruct (getProp (attachments _) _).
    + intros [= <-]. set_solver.
    + rewrite (readonly_run _ w (readonly_getAttachments _)).
      unfold getAttachments, bind, get. by destruct (getProp (attachments _) _).
  - intros [= <-]. apply mapM_getStepResult_errors in Hm.
    do 5 apply list_elem_of_further.
    change (e' ∈ stepErrors ++ [TypeError]). apply elem_of_app. by left.
Qed.

(** When the case is found and no stored pickle has the identifier it
    refers to, [getTestResult] throws 'Pickle not found'. *)
Theorem getTestResult_pickle_missing (w : World) (testId : string) (testCase : TestCase) :
  find (λ testCase, bool_decide (testCase_id testCase = testId)) (testCases (this w))
    = Some testCase →
  Forall (λ pickle, pickle_id pickle ≠ testCase_pickleId testCase) (pickles (this w)) →
  getTestResult testId w = (Throw (Error "Pickle not found"), w).
Proof.
  intros Hcase Hnone. unfold getTestResult, bind, get. rewrite Hcase. simpl.
  assert (Hfind : find (λ pickle, bool_decide (pickle_id pickle = testCase_pickleId testCase))
                       (pickles (this w)) = None).
  { induction Hnone as [|pickle rest Hne _ IH]; [done|].
    simpl. by rewrite bool_decide_eq_false_2. }
  by rewrite Hfind.
Qed.

(** When case, pickle and external identifier are found, [getTestResult]
    throws 'TestCaseStarted not found' exactly when no started record is
    stored at all: a started record of any case passes this lookup. *)
Theorem getTestResult_started_missing_iff (w : World) (testId : string)
    (testCase : TestCase) (pickle : Pickle) (ext : string) :
  find (λ testCase, bool_decide (testCase_id testCase = testId)) (testCases (this w))
    = Some testCase →
  find (λ pickle, bool_decide (pickle_id pickle = testCase_pickleId testCase))
       (pickles (this w)) = Some pickle →
  tags_externalId (parseTags (pickle_tags pickle)) = Some ext →
  fst (getTestResult testId w) = Throw (Error "TestCaseStarted not found")
  ↔ testCasesStarted (this w) = [].
Proof.
  intros Hcase Hpickle Hext. split.
  - intros Hthrow. destruct (testCasesStarted (this w)) as [|started rest] eqn:Hs; [done|].
    exfalso. revert Hthrow. unfold getTestResult, bind, get.
    rewrite Hcase. simpl. rewrite Hpickle. simpl. rewrite Hext. simpl.
    rewrite find_testCaseStarted_head, Hs. simpl.
    destruct (find _ (testCasesFinished (this w))); simpl; [|done].
    rewrite (readonly_run _ w (readonly_mapM _ _ (λ s, readonly_getStepResult s testCase))).
    destruct (fst (mapM _ (pickle_steps pickle) w)) as [mapped|e'] eqn:Hm.
    + destruct (collectStepMessages_returns _ _ _ _ Hm) as [ms ->].
      destruct (getProp (messages (this w)) _); simpl; [|done|];
        rewrite (readonly_run _ w (readonly_getAttachments _));
        unfold getAttachments, bind, get; by destruct (getProp (attachments _) _).
    + intros [= ->]. apply mapM_getStepResult_errors in Hm.
      unfold stepErrors in Hm.
      repeat (apply elem_of_cons in Hm as [Hm|Hm]; [discriminate|]).
      by apply elem_of_nil in Hm.
  - intros Hs. unfold getTestResult, bind, get.
    rewrite Hcase. simpl. rewrite Hpickle. simpl. rewrite Hext. simpl.
    by rewrite Hs.
Qed.

(** When the earlier lookups succeed and no finished record refers to the
    first started record stored, [getTestResult] throws 'TestCaseFinished
    not found'. *)
Theorem getTestResult_finished_missing (w : World) (testId : string)
    (testCase : TestCase) (pickle : Pickle) (ext : string) (started : TestCaseStarted) :
  find (λ testCase, bool_decide (testCase_id testCase = testId)) (testCases (this w))
    = Some testCase →
  find (λ pickle, bool_decide (pickle_id pickle = testCase_pickleId testCase))
       (pickles (this w)) = Some pickle →
  tags_externalId (parseTags (pickle_tags pickle)) = Some ext →
  head (testCasesStarted (this w)) = Some started →
  Forall (λ finished, testCaseFinished_testCaseStartedId finished
                      ≠ testCaseStarted_id started) (testCasesFinished (this w)) →
  getTestResult testId w = (Throw (Error "TestCaseFinished not found"), w).
Proof.
  intros Hcase Hpickle Hext Hstarted Hnone. unfold getTestResult, bind, get.
  rewrite Hcase. simpl. rewrite Hpickle. simpl. rewrite Hext. simpl.
  rewrite find_testCaseStarted_head, Hstarted. simpl.
  assert (Hfind : find (λ testCase, bool_decide (testCaseFinished_testCaseStartedId testCase
                                                 = testCaseStarted_id started))
                       (testCasesFinished (this w)) = None).
  { induction Hnone as [|finished rest Hne _ IH]; [done|].
    simpl. by rewrite bool_decide_eq_false_2. }
  by rewrite Hfind.
Qed.

(** When the case's own lookups succeed and some pickle step does not
    resolve, [getTestResult] throws the error of the first such step, in the
    order of the pickle's steps, and builds no partial result. *)
Theorem getTestResult_first_unresolved_step (w : World) (testId : string)
    (testCase : TestCase) (pickle : Pickle) (ext : string)
    (started : TestCaseStarted) (finished : TestCaseFinished)
    (before : list PickleStep) (step : PickleStep) (after : list PickleStep) (e : Exn) :
  find (λ testCase, bool_decide (testCase_id testCase = testId)) (testCases (this w))
    = Some testCase →
  find (λ pickle, bool_decide (pickle_id pickle = testCase_pickleId testCase))
       (pickles (this w)) = Some pickle →
  tags_externalId (parseTags (pickle_tags pickle)) = Some ext →
  head (testCasesStarted (this w)) = Some started →
  find (λ testCase, bool_decide (testCaseFinished_testCaseStartedId testCase
                                 = testCaseStarted_id started))
       (testCasesFinished (this w)) = Some finished →
  pickle_steps pickle = before ++ step :: after →
  Forall (λ s, ∃ x, fst (getStepResult s testCase w) = Return x) before →
  fst (getStepResult step testCase w) = Throw e →
  getTestResult testId w = (Throw e, w).
Proof.
  intros Hcase Hpickle Hext Hstarted Hfinished Hsteps Hbefore Hstep.
  unfold getTestResult, bind, get.
  rewrite Hcase. simpl. rewrite Hpickle. simpl. rewrite Hext. simpl.
  rewrite find_testCaseStarted_head, Hstarted. simpl. rewrite Hfinished. simpl.
  rewrite (readonly_run _ w (readonly_mapM _ _ (λ s, readonly_getStepResult s testCase))).
  by rewrite Hsteps, (mapM_getStepResult_first_throw _ _ _ _ _ _ Hbefore Hstep).
Qed.

End ResultErrors.

(** ** What a result holds *)

Section ResultContents.
Context `{Collab : Collaborators}.

(** A result comes from successful lookups only; these are the records found
    and the fields built from them. *)
Lemma getTestResult_inv w testId r :
  fst (getTestResult testId w) = Return r →
  ∃ testCase pickle ext started finished mapped,
    find (λ testCase, bool_decide (testCase_id testCase = testId)) (testCases (this w))
      = Some testCase
    ∧ find (λ pickle, bool_decide (pickle_id pickle = testCase_pickleId testCase))
           (pickles (this w)) = Some pickle
    ∧ tags_externalId (parseTags (pickle_tags pickle)) = Some ext
    ∧ head (testCasesStarted (this w)) = Some started
    ∧ find (λ testCase, bool_decide (testCaseFinished_testCaseStartedId testCase
                                     = testCaseStarted_id started))
           (testCasesFinished (this w)) = Some finished
    ∧ fst (mapM (λ step, getStepResult step testCase) (pickle_steps pickle) w)
      = Return mapped
    ∧ externalId r = ext
    ∧ stepResults r = cascadingSkipFilter mapped
    ∧ outcome r = calculateResultOutcome (map step_outcome (stepResults r))
    ∧ startedOn r = mapDate (seconds (testCaseStarted_timestamp started))
    ∧ completedOn r = mapDate (seconds (testCaseFinished_timestamp finished))
    ∧ duration r = seconds (testCaseFinished_timestamp finished)
                   - seconds (testCaseStarted_timestamp started).
Proof.
  unfold getTestResult, bind, get.
  destruct (find _ (testCases (this w))) as [testCase|] eqn:Hc; [|done]. simpl.
  destruct (find _ (pickles (this w))) as [pickle|] eqn:Hp; [|done]. simpl.
  destruct (tags_externalId _) as [ext|] eqn:He; [|done]. simpl.
  rewrite find_testCaseStarted_head.
  destruct (head (testCasesStarted (this w))) as [started|] eqn:Hs; [|done]. simpl.
  destruct (find _ (testCasesFinished (this w))) as [finished|] eqn:Hf; [|done]. simpl.
  rewrite (readonly_run _ w (readonly_mapM _ _ (λ s, readonly_getStepResult s testCase))).
  destruct (fst (mapM _ (pickle_steps pickle) w)) as [mapped|] eqn:Hm; [|done].
  destruct (collectStepMessages_returns _ _ _ _ Hm) as [ms ->].
  intros Hr. exists testCase, pickle, ext, started, finished, mapped.
  do 6 (split; [done|]). revert Hr.
  destruct (getProp (messages (this w)) _); simpl; [|done|];
    rewrite (readonly_run _ w (readonly_getAttachments _));
    unfold getAttachments, bind, get;
    destruct (getProp (attachments _) _); simpl; by intros [= <-].
Qed.


Lemma mapM_getStepResult_titles steps testCase w mapped :
  fst (mapM (λ step, getStepResult step testCase) steps w) = Return mapped →
  map step_title mapped = map pickleStep_text steps.
Proof.
  revert mapped. induction steps as [|step rest IH]; intros mapped Hm.
  - by injection Hm as <-.
  - apply mapM_cons_returns in Hm as (b & bs & -> & Hb & Hrest);
      [|intros; apply readonly_getStepResult].
    simpl. f_equal; [|by apply IH].
    revert Hb. unfold getStepResult, bind, get, found, ret, throw.
    destruct (find _ (testCase_testSteps testCase)); [|done].
    destruct (find _ (testStepsStarted (this w))); [|done].
    destruct (find _ (testStepsFinished (this w))); [|done].
    by intros [= <-].
Qed.

Lemma filter_from_sublist {A} (f : A → Z → bool) (i : Z) (l : list A) :
  filter_from f i l `sublist_of` l.
Proof.
  revert i. induction l as [|x l IH]; intros i; simpl; [done|].
  destruct (f x i); [by apply sublist_skip|by apply sublist_cons].
Qed.

Lemma sublist_map {A B} (f : A → B) (l1 l2 : list A) :
  l1 `sublist_of` l2 → map f l1 `sublist_of` map f l2.
Proof.
  induction 1; simpl; [done|by apply sublist_skip|by apply sublist_cons].
Qed.

(** The titles of the step results of a result are texts of steps of the
    case's pickle, in the pickle's order (a subsequence of them); the overall
    outcome is computed from the outcomes of the step results the result
    shows, after the filter. *)
Theorem getTestResult_steps (w : World) (testId : string) (r : TestResult) :
  fst (getTestResult testId w) = Return r →
  ∃ testCase pickle,
    find (λ testCase, bool_decide (testCase_id testCase = testId)) (testCases (this w))
      = Some testCase
    ∧ find (λ pickle, bool_decide (pickle_id pickle = testCase_pickleId testCase))
           (pickles (this w)) = Some pickle
    ∧ map step_title (stepResults r) `sublist_of` map pickleStep_text (pickle_steps pickle)
    ∧ outcome r = calculateResultOutcome (map step_outcome (stepResults r)).
Proof.
  intros Hr. destruct (getTestResult_inv _ _ _ Hr)
    as (testCase & pickle & ext & started & finished & mapped
        & Hc & Hp & _ & _ & _ & Hm & _ & Hsteps & Ho & _).
  exists testCase, pickle. split_and!; [done|done| |done].
  rewrite Hsteps, <- (mapM_getStepResult_titles _ _ _ _ Hm).
  apply sublist_map, filter_from_sublist.
Qed.

(** A result is only returned for a case that [isResolvedTestCase] accepts,
    and its external identifier is the one in the tags of the first stored
    pickle with the identifier the case refers to. *)
Theorem getTestResult_only_resolved (w : World) (testId : string) (r : TestResult)
    (testCase : TestCase) :
  fst (getTestResult testId w) = Return r →
  find (λ testCase, bool_decide (testCase_id testCase = testId)) (testCases (this w))
    = Some testCase →
  fst (isResolvedTestCase testCase w) = Return true
  ∧ ∃ pickle,
      find (λ pickle, bool_decide (pickle_id pickle = testCase_pickleId testCase))
           (pickles (this w)) = Some pickle
      ∧ tags_externalId (parseTags (pickle_tags pickle)) = Some (externalId r).
Proof.
  intros Hr Hcase. destruct (getTestResult_inv _ _ _ Hr)
    as (testCase' & pickle & ext & started & finished & mapped
        & Hc & Hp & He & _ & _ & _ & Hext & _).
  rewrite Hcase in Hc. injection Hc as <-. split.
  - unfold isResolvedTestCase, bind, get, ret. simpl. f_equal.
    apply isResolvedTestCase_loop_true. exists pickle.
    apply find_some in Hp as [Hin Hid]. apply bool_decide_eq_true_1 in Hid.
    split_and!; [by apply list_elem_of_In|done|by rewrite He].
  - exists pickle. by rewrite Hext.
Qed.

End ResultContents.

(** ** More on the cascading-skip filter *)

Section FilterProperties.
Context `{Collab : Collaborators}.

Lemma keepStep_false item i arr :
  keepStep item i arr = false → step_outcome item = "Skipped".
Proof.
  unfold keepStep. destruct (bool_decide (step_outcome item = "Skipped")) eqn:Hs; [|done].
  intros _. by apply bool_decide_eq_true_1 in Hs.
Qed.

Lemma filter_from_keeps {A} (f : A → Z → bool) (P : A → Prop) `{!∀ x, Decision (P x)}
    (i : Z) (l : list A) :
  (∀ x j, f x j = false → ¬ P x) →
  filter P (filter_from f i l) = filter P l.
Proof.
  intros Hf. revert i. induction l as [|x l IH]; intros i; simpl; [done|].
  destruct (f x i) eqn:Hx.
  - rewrite !filter_cons. by rewrite IH.
  - rewrite (filter_cons_False _ x l) by eauto. apply IH.
Qed.

(** The filter returns a subsequence of its input that starts with the same
    step: the first step is kept whatever its outcome. *)
Theorem cascadingSkipFilter_sublist (arr : list TestResultStep) :
  cascadingSkipFilter arr `sublist_of` arr
  ∧ head (cascadingSkipFilter arr) = head arr.
Proof.
  split; [apply filter_from_sublist|].
  destruct arr as [|first rest]; [done|].
  unfold cascadingSkipFilter, js_filter. simpl. unfold keepStep at 1. simpl.
  by rewrite andb_false_r.
Qed.

(** The filter drops Skipped steps only: the steps with another outcome all
    stay, in their order. *)
Theorem cascadingSkipFilter_keeps_unskipped (arr : list TestResultStep) :
  filter (λ s, step_outcome s ≠ "Skipped") (cascadingSkipFilter arr)
  = filter (λ s, step_outcome s ≠ "Skipped") arr.
Proof.
  apply filter_from_keeps. intros x j Hx Hne. by apply keepStep_false in Hx.
Qed.

Lemma filter_from_all {A} (f : A → Z → bool) (i : Z) (l : list A) :
  Forall (λ x, ∀ j, f x j = true) l → filter_from f i l = l.
Proof.
  intros Hl. revert i. induction Hl as [|x l Hx _ IH]; intros i; simpl; [done|].
  by rewrite Hx, IH.
Qed.

(** A run without a Skipped step passes the filter unchanged. *)
Theorem cascadingSkipFilter_no_skipped (arr : list TestResultStep) :
  Forall (λ s, step_outcome s ≠ "Skipped") arr →
  cascadingSkipFilter arr = arr.
Proof.
  intros Harr. apply filter_from_all.
  eapply Forall_impl; [|exact Harr]. intros x Hx j. unfold keepStep.
  by rewrite bool_decide_eq_false_2.
Qed.

Lemma filteredWindowPass_settled lastKept (l : list TestResultStep) :
  settled lastKept (map step_outcome (filteredWindowPass lastKept l)) = true.
Proof.
  revert lastKept. induction l as [|item rest IH]; intros lastKept; simpl; [done|].
  change (match lastKept with
          | Some prev => bool_decide (prev ∈ ["Failed"; "Skipped"])
          | None => false
          end) with (cascades lastKept).
  destruct (bool_decide (step_outcome item = "Skipped") && cascades lastKept) eqn:Hdrop.
  - apply IH.
  - simpl. by rewrite Hdrop, IH.
Qed.

Lemma settled_filteredWindowPass lastKept (l : list TestResultStep) :
  settled lastKept (map step_outcome l) = true → filteredWindowPass lastKept l = l.
Proof.
  revert lastKept. induction l as [|item rest IH]; intros lastKept; simpl; [done|].
  change (match lastKept with
          | Some prev => bool_decide (prev ∈ ["Failed"; "Skipped"])
          | None => false
          end) with (cascades lastKept).
  destruct (bool_decide (step_outcome item = "Skipped") && cascades lastKept);
    simpl; [done|].
  intros Hrest. by rewrite IH.
Qed.

Lemma settled_adjacent prev (l1 : list Outcome) a b l2 :
  settled prev (l1 ++ a :: b :: l2) = true →
  b = "Skipped" → a ≠ "Failed" ∧ a ≠ "Skipped".
Proof.
  revert prev. induction l1 as [|o l1 IH]; intros prev; simpl.
  - intros Hs ->. apply andb_prop in Hs as [_ Hs]. apply andb_prop in Hs as [Hb _].
    simpl in Hb. apply negb_true_iff, bool_decide_eq_false_1 in Hb.
    split; intros ->; apply Hb; set_solver.
  - intros Hs. apply andb_prop in Hs as [_ Hs]. by apply (IH (Some o)).
Qed.

(** In what the filter returns, no Skipped step stands right after a Failed
    or a Skipped step. *)
Theorem cascadingSkipFilter_no_cascade (arr l1 l2 : list TestResultStep)
    (a b : TestResultStep) :
  cascadingSkipFilter arr = l1 ++ a :: b :: l2 →
  step_outcome b = "Skipped" →
  step_outcome a ≠ "Failed" ∧ step_outcome a ≠ "Skipped".
Proof.
  intros Hout Hb.
  pose proof (filteredWindowPass_settled None arr) as Hs.
  rewrite <- (filter_from_window [] arr None eq_refl) in Hs.
  change (filter_from _ _ arr) with (cascadingSkipFilter arr) in Hs.
  rewrite Hout, map_app in Hs. simpl in Hs.
  by eapply settled_adjacent.
Qed.

(** Filtering twice is filtering once. *)
Theorem cascadingSkipFilter_idempotent (arr : list TestResultStep) :
  cascadingSkipFilter (cascadingSkipFilter arr) = cascadingSkipFilter arr.
Proof.
  pose proof (filteredWindowPass_settled None arr) as Hs.
  rewrite <- (filter_from_window [] arr None eq_refl) in Hs.
  change (filter_from _ _ arr) with (cascadingSkipFilter arr) in Hs.
  apply settled_filteredWindowPass in Hs.
  rewrite <- (filter_from_window [] _ None eq_refl) in Hs. exact Hs.
Qed.

Lemma filteredWindowPass_skips lastKept (skips : list TestResultStep) :
  cascades lastKept = true →
  Forall (λ s, step_outcome s = "Skipped") skips →
  filteredWindowPass lastKept skips = [].
Proof.
  intros Hlast Hskips. induction Hskips as [|s skips Hs _ IH]; simpl; [done|].
  change (match lastKept with
          | Some prev => bool_decide (prev ∈ ["Failed"; "Skipped"])
          | None => false
          end) with (cascades lastKept).
  by rewrite Hs, Hlast.
Qed.

(** The usual failed run: steps that are not Skipped, then a Failed step,
    then only Skipped steps. The filter keeps the steps up to the failure
    and none of the skipped ones. *)
Theorem cascadingSkipFilter_failed_run (pre : list TestResultStep)
    (failed : TestResultStep) (skips : list TestResultStep) :
  Forall (λ s, step_outcome s ≠ "Skipped") pre →
  step_outcome failed = "Failed" →
  Forall (λ s, step_outcome s = "Skipped") skips →
  cascadingSkipFilter (pre ++ failed :: skips) = pre ++ [failed].
Proof.
  intros Hpre Hfailed Hskips.
  transitivity (filteredWindowPass None (pre ++ failed :: skips));
    [exact (filter_from_window [] _ None eq_refl)|].
  generalize (@None Outcome) as lastKept.
  induction Hpre as [|s pre Hs _ IH]; intros lastKept; simpl.
  - rewrite Hfailed. simpl. f_equal. by apply filteredWindowPass_skips.
  - rewrite (bool_decide_eq_false_2 _ Hs). simpl. by rewrite IH.
Qed.

End FilterProperties.

(** ** The further properties on the run of two scenarios *)

(** The login scenario's result survives the events of the checkout
    scenario, a second finished record for its own started record, and
    queries. *)
Lemma getTestResult_stable_witness :
  ∃ r, fst (getTestResult "case-1" Demo.onlyLogin) = Return r
       ∧ fst (getTestResult "case-1"
                (calls (Demo.checkoutRun
                        ++ [ SaveTestCaseFinished (mkTestCaseFinished "started-1" (Demo.at_ 99));
                             GetTestResult "case-2" ])
                       Demo.onlyLogin)) = Return r.
Proof.
  eexists. split; [by vm_compute|].
  apply getTestResult_stable; [|by vm_compute].
  apply (bool_decide_unpack _). vm_compute. exact I.
Defined.

Lemma isResolvedTestCase_stays_true_witness :
  fst (isResolvedTestCase Demo.loginCase (calls Demo.checkoutRun Demo.onlyLogin))
  = Return true.
Proof. apply isResolvedTestCase_stays_true. by vm_compute. Defined.

Lemma saves_commute_witness :
  call (SaveTestCase Demo.loginCase) (call (SavePickle Demo.loginPickle) Demo.emptyWorld)
  = call (SavePickle Demo.loginPickle) (call (SaveTestCase Demo.loginCase) Demo.emptyWorld).
Proof. by apply (saves_commute _ _ Pickles Cases). Defined.

(** Two notes for the login case, added one after the other. *)
Lemma addMessage_in_result_witness :
  ∃ r, fst (getTestResult "case-1"
              (snd (addMessage "case-1" "second note"
                      (snd (addMessage "case-1" "first note" Demo.onlyLogin)))))
       = Return r
       ∧ message r = Some ("first note" +:+ doubleNewline +:+ "second note").
Proof.
  eexists. split.
  - eapply addMessage_in_result. by vm_compute.
  - by vm_compute.
Defined.

(** Links for the login case: first the array at 0, then the array at 1. *)
Lemma addLinks_in_result_witness :
  let l1 := mkLink "https://tracker/1" None in
  let l2 := mkLink "https://tracker/2" None in
  let heap := λ r : loc, match r with 0%nat => [l1] | 1%nat => [l2] | _ => [] end in
  let w := snd (addLinks "case-1" 0%nat (mkWorld (this Demo.onlyLogin) heap)) in
  ∃ r, fst (getTestResult "case-1" (snd (addLinks "case-1" 1%nat w))) = Return r
       ∧ result_resultLinks r = Own [l1; l2].
Proof.
  intros l1 l2 heap w. eexists. split.
  - eapply (addLinks_in_result w "case-1" 1%nat).
    + apply (bool_decide_unpack _). by vm_compute.
    + by vm_compute.
  - by vm_compute.
Defined.

(** Two cases given the same array; more links for the first. *)
Lemma addLinks_reaches_every_sharer_witness :
  let l1 := mkLink "https://tracker/1" None in
  let l2 := mkLink "https://tracker/2" None in
  let heap := λ r : loc, match r with 0%nat => [l1] | 1%nat => [l2] | _ => [] end in
  let w := calls [AddLinks "case-1" 0%nat; AddLinks "case-2" 0%nat]
                 (mkWorld emptyStorage heap) in
  linksOf (snd (addLinks "case-1" 1%nat w)) "case-2" = Some [l1; l2].
Proof.
  intros l1 l2 heap w.
  by apply (addLinks_reaches_every_sharer w "case-1" 1%nat 0%nat "case-2" 0%nat).
Defined.

Lemma getAttachments_never_changes_witness :
  let w := calls [AddAttachment "case-1" "a1"] Demo.onlyLogin in
  fst (getAttachments "case-1"
         (calls (AddAttachment "case-1" "a2" :: Demo.checkoutRun) w))
  = Return (Own [mkAttachment "a1"]).
Proof. intros w. apply getAttachments_never_changes. by vm_compute. Defined.

Lemma getAttachments_first_only_witness :
  ∃ before attachmentId after,
    [AddAttachment "case-2" "b1"; AddAttachment "case-1" "a1"; AddAttachment "case-1" "a2"]
    = before ++ AddAttachment "case-1" attachmentId :: after
    ∧ (∀ a, AddAttachment "case-1" a ∉ before)
    ∧ [mkAttachment "a1"] = [mkAttachment attachmentId].
Proof.
  apply (getAttachments_first_only _ (λ _, []) "case-1" [mkAttachment "a1"]).
  by vm_compute.
Defined.

Lemma prototype_keys_rejected_witness :
  let w := calls Demo.loginRun Demo.emptyWorld in
  addMessage "constructor" "note" w = (Throw TypeError, w)
  ∧ addLinks "constructor" 0%nat w = (Throw TypeError, w)
  ∧ addAttachment "constructor" "a1" w = (Throw TypeError, w)
  ∧ getAttachments "constructor" w = (Return Inherited, w)
  ∧ ∀ r, fst (getTestResult "constructor" w) ≠ Return r.
Proof.
  apply (prototype_keys_rejected Demo.loginRun (λ _, []) "constructor").
  apply (bool_decide_unpack _). by vm_compute.
Defined.

Lemma getTestResult_errors_witness :
  Error "External ID is not provided" ∈ resultErrors.
Proof. apply (getTestResult_errors Demo.withDraft "case-3"). by vm_compute. Defined.

(** A case whose pickle never arrived. *)
Lemma getTestResult_pickle_missing_witness :
  let w := calls [SavePickle Demo.loginPickle; SaveTestCase Demo.draftCase] Demo.emptyWorld in
  getTestResult "case-3" w = (Throw (Error "Pickle not found"), w).
Proof.
  intros w. apply (getTestResult_pickle_missing w "case-3" Demo.draftCase); [done|].
  apply (bool_decide_unpack _). by vm_compute.
Defined.

(** The checkout scenario with its pickle and case only: no started record
    is stored. *)
Lemma getTestResult_started_missing_iff_witness :
  let w := calls [SavePickle Demo.checkoutPickle; SaveTestCase Demo.checkoutCase]
                 Demo.emptyWorld in
  fst (getTestResult "case-2" w) = Throw (Error "TestCaseStarted not found")
  ↔ testCasesStarted (this w) = [].
Proof.
  intros w.
  by apply (getTestResult_started_missing_iff w "case-2" Demo.checkoutCase
              Demo.checkoutPickle "checkout").
Defined.

Lemma getTestResult_finished_missing_witness :
  let w := calls [ SavePickle Demo.loginPickle; SaveTestCase Demo.loginCase;
                   SaveTestCaseStarted (mkTestCaseStarted "started-1" "case-1" (Demo.at_ 10));
                   SaveTestCaseFinished (mkTestCaseFinished "started-2" (Demo.at_ 27)) ]
                 Demo.emptyWorld in
  getTestResult "case-1" w = (Throw (Error "TestCaseFinished not found"), w).
Proof.
  intros w.
  eapply (getTestResult_finished_missing w "case-1" Demo.loginCase Demo.loginPickle);
    [done|done|done|done|].
  apply (bool_decide_unpack _). by vm_compute.
Defined.

(** The checkout scenario with the events of its first two steps only: the
    third step is the first without a started record. *)
Lemma getTestResult_first_unresolved_step_witness :
  let w := calls ([ SavePickle Demo.checkoutPickle; SaveTestCase Demo.checkoutCase;
                    SaveTestCaseStarted (mkTestCaseStarted "started-2" "case-2" (Demo.at_ 20));
                    SaveTestCaseFinished (mkTestCaseFinished "started-2" (Demo.at_ 27)) ]
                  ++ Demo.stepEvents "ts-21" PASSED 20
                  ++ Demo.stepEvents "ts-22" FAILED 21)
                 Demo.emptyWorld in
  getTestResult "case-2" w = (Throw (Error "TestStepStarted not found"), w).
Proof.
  intros w.
  eapply (getTestResult_first_unresolved_step w "case-2" Demo.checkoutCase
            Demo.checkoutPickle "checkout" _ _
            [mkPickleStep "ps-21" "Given a cart"; mkPickleStep "ps-22" "When the user pays"]
            (mkPickleStep "ps-23" "Then a receipt is shown")).
  1-6: reflexivity.
  - repeat constructor; eexists; by vm_compute.
  - by vm_compute.
Defined.


Lemma getTestResult_steps_witness :
  ∃ r testCase pickle,
    fst (getTestResult "case-2" Demo.onlyCheckout) = Return r
    ∧ find (λ testCase, bool_decide (testCase_id testCase = "case-2"))
           (testCases (this Demo.onlyCheckout)) = Some testCase
    ∧ find (λ pickle, bool_decide (pickle_id pickle = testCase_pickleId testCase))
           (pickles (this Demo.onlyCheckout)) = Some pickle
    ∧ map step_title (stepResults r) `sublist_of` map pickleStep_text (pickle_steps pickle)
    ∧ outcome r = calculateResultOutcome (map step_outcome (stepResults r)).
Proof.
  eexists.
  assert (Hr : fst (getTestResult "case-2" Demo.onlyCheckout) = Return _)
    by (by vm_compute).
  destruct (getTestResult_steps _ _ _ Hr) as (testCase & pickle & H).
  exists testCase, pickle. by split.
Defined.

Lemma getTestResult_only_resolved_witness :
  fst (isResolvedTestCase Demo.loginCase Demo.onlyLogin) = Return true
  ∧ ∃ pickle,
      find (λ pickle, bool_decide (pickle_id pickle = testCase_pickleId Demo.loginCase))
           (pickles (this Demo.onlyLogin)) = Some pickle
      ∧ tags_externalId (parseTags (pickle_tags pickle)) = Some "login".
Proof.
  eapply (getTestResult_only_resolved Demo.onlyLogin "case-1"
            (mkTestResult "login" _ _ _ _ _ _ _ _ _ _ _));
    by vm_compute.
Defined.

Lemma cascadingSkipFilter_no_skipped_witness :
  let steps := [ mkTestResultStep "Given a cart" 20000 1 21000 "Passed";
                 mkTestResultStep "When the user pays" 21000 1 22000 "Failed" ] in
  cascadingSkipFilter steps = steps.
Proof.
  intros steps. apply cascadingSkipFilter_no_skipped.
  apply (bool_decide_unpack _). by vm_compute.
Defined.

Lemma cascadingSkipFilter_no_cascade_witness :
  let failed := mkTestResultStep "When the user pays" 21000 1 22000 "Failed" in
  let dropped := mkTestResultStep "Then a receipt is shown" 22000 1 23000 "Skipped" in
  let passed := mkTestResultStep "And the cart is cleared" 24000 1 25000 "Passed" in
  let kept := mkTestResultStep "And a mail is sent" 25000 1 26000 "Skipped" in
  cascadingSkipFilter [failed; dropped; passed; kept] = [failed] ++ passed :: kept :: []
  ∧ step_outcome passed ≠ "Failed" ∧ step_outcome passed ≠ "Skipped".
Proof.
  intros failed dropped passed kept. split; [by vm_compute|].
  apply (cascadingSkipFilter_no_cascade [failed; dropped; passed; kept] [failed] []
           passed kept); by vm_compute.
Defined.

Lemma cascadingSkipFilter_failed_run_witness :
  let passed := mkTestResultStep "Given a cart" 20000 1 21000 "Passed" in
  let failed := mkTestResultStep "When the user pays" 21000 1 22000 "Failed" in
  let skipped1 := mkTestResultStep "Then a receipt is shown" 22000 1 23000 "Skipped" in
  let skipped2 := mkTestResultStep "And stock is reduced" 23000 1 24000 "Skipped" in
  cascadingSkipFilter [passed; failed; skipped1; skipped2] = [passed; failed].
Proof.
  intros passed failed skipped1 skipped2.
  apply (cascadingSkipFilter_failed_run [passed] failed [skipped1; skipped2]).
  - apply (bool_decide_unpack _). by vm_compute.
  - reflexivity.
  - apply (bool_decide_unpack _). by vm_compute.
Defined.
